(** * TypeFly controller: frame dispatch and result correlation

    A shallow embedding of [controller/yolo_client.py] (class [YoloClient],
    HTTP) and [controller/yolo_grpc_client.py] (class [YoloGRPCClient], gRPC):
    the frame queue, the frame counter, the optional [SharedFrame], the local
    (blocking) detection path and the asynchronous path with its
    discard-old-images / discard-old-results reconciliation.

    Python integers are unbounded, so ids are [Z].  A coroutine only gives up
    control at an [await]; the code between two awaits is therefore one atomic
    step of the model. *)

From Stdlib Require Import List ZArith Lia Bool Sorted.
From Stdlib Require String.
Import ListNotations.
Local Open Scope Z_scope.

(** ** Python-level data shared by both clients *)

Module Py.

(** Exceptions that can leave a call. *)
Inductive exn : Type :=
| IndexError          (* [queue[0]] on an empty deque *)
| KeyError            (* [json_results['image_id']] without that key *)
| RuntimeError        (* contextlib: "generator didn't yield" *)
| UnboundLocalError   (* [results] read before it was bound *)
| JSONDecodeError     (* [json.loads] on a body that is not JSON *)
| RequestException    (* [requests.post] failed *)
| RpcError.           (* a gRPC call failed *)

(** Lines written by [print_t]. *)
Inductive line : Type :=
| ImageIsNone | ImageIsNoneAsync | SendingRequest | ResponseText
| ExceptionInDetectLocal (e : exn)
| TimeoutConnecting | ExceptionInAiohttp | InvalidJSON.

(** [Frame]: only its [image] attribute (a PIL image or [None]) is read. *)
Record Frame (Image : Type) : Type := mkFrame { image : option Image }.
Arguments mkFrame {Image} _.
Arguments image {Image} _.

(** The decoded response, a dict: its ['image_id'] entry, absent or an
    integer, and the rest of the payload.  Bodies that decode to anything
    else (a list, a dict whose ['image_id'] is not an integer) are outside
    the model. *)
Record JsonResults (Boxes : Type) : Type :=
  mkResults { image_id : option Z; boxes : Boxes }.
Arguments mkResults {Boxes} _ _.
Arguments image_id {Boxes} _.
Arguments boxes {Boxes} _.

(** [json_results.get('image_id', d)] *)
Definition get_image_id {Boxes} (r : JsonResults Boxes) (d : Z) : Z :=
  match image_id r with Some i => i | None => d end.

(** [json_results['image_id']], as a value or a [KeyError]. *)
Definition getitem_image_id {Boxes} (r : JsonResults Boxes) : option Z :=
  image_id r.

(** A response text, by what [json.loads] makes of it. *)
Inductive text (Boxes : Type) : Type :=
| NotJson
| Json (r : JsonResults Boxes).
Arguments NotJson {Boxes}.
Arguments Json {Boxes} _.

(** [SharedFrame] lives in [shared_frame.py]; a client only ever calls its
    [set].  The object is represented by the calls made on it, the latest
    first. *)
Definition SharedFrame (Image Boxes : Type) : Type :=
  list (Frame Image * JsonResults Boxes).

(** The attributes of a client object that detection reads or writes.  [E] is
    the type of the queue elements: a bare frame on the local path, a pair
    [(frame_id, frame)] on the asynchronous path. *)
Record Client (Image Boxes E : Type) : Type := mkClient {
  frame_queue : list E;
  shared_frame : option (SharedFrame Image Boxes);
  frame_id : Z
}.
Arguments mkClient {Image Boxes E} _ _ _.
Arguments frame_queue {Image Boxes E} _.
Arguments shared_frame {Image Boxes E} _.
Arguments frame_id {Image Boxes E} _.

(** The client object together with what was printed so far. *)
Record World (Image Boxes E : Type) : Type := mkWorld {
  self : Client Image Boxes E;
  stdout : list line
}.
Arguments mkWorld {Image Boxes E} _ _.
Arguments self {Image Boxes E} _.
Arguments stdout {Image Boxes E} _.

(** How a piece of code ends: with a value, with an exception, or blocked for
    ever ([Queue.get()] on an empty queue). *)
Inductive res (A : Type) : Type :=
| Val (a : A)
| Exc (e : exn)
| Blocked.
Arguments Val {A} _.
Arguments Exc {A} _.
Arguments Blocked {A}.

Section Monad.
Context {Image Boxes E : Type}.

Definition M (A : Type) : Type :=
  World Image Boxes E -> res A * World Image Boxes E.

Definition ret {A} (a : A) : M A := fun w => (Val a, w).

Definition bind {A B} (m : M A) (k : A -> M B) : M B :=
  fun w =>
    match m w with
    | (Val a, w') => k a w'
    | (Exc e, w') => (Exc e, w')
    | (Blocked, w') => (Blocked, w')
    end.

Definition raise {A} (e : exn) : M A := fun w => (Exc e, w).

(** [try: m  except Exception as e: h e] *)
Definition try_except {A} (m : M A) (h : exn -> M A) : M A :=
  fun w =>
    match m w with
    | (Exc e, w') => h e w'
    | r => r
    end.

Definition with_self (f : Client Image Boxes E -> Client Image Boxes E)
  : M unit :=
  fun w => (Val tt, mkWorld (f (self w)) (stdout w)).

Definition read {A} (f : Client Image Boxes E -> A) : M A :=
  fun w => (Val (f (self w)), w).

Definition print_t (l : line) : M unit :=
  fun w => (Val tt, mkWorld (self w) (stdout w ++ [l])).

(** [self.frame_queue.empty()] *)
Definition q_empty : M bool :=
  read (fun c => match frame_queue c with [] => true | _ => false end).

(** [self.frame_queue.put(e)] *)
Definition q_put (e : E) : M unit :=
  with_self (fun c =>
    mkClient (frame_queue c ++ [e]) (shared_frame c) (frame_id c)).

(** [self.frame_queue.get()]: blocks while the queue is empty. *)
Definition q_get : M E :=
  fun w =>
    match frame_queue (self w) with
    | [] => (Blocked, w)
    | e :: q =>
        (Val e,
         mkWorld (mkClient q (shared_frame (self w)) (frame_id (self w)))
                 (stdout w))
    end.

(** [self.frame_queue.queue[0]] *)
Definition q_front : M E :=
  fun w =>
    match frame_queue (self w) with
    | [] => (Exc IndexError, w)
    | e :: _ => (Val e, w)
    end.

(** [self.frame_id += 1] *)
Definition incr_frame_id : M unit :=
  with_self (fun c =>
    mkClient (frame_queue c) (shared_frame c) (frame_id c + 1)).

(** [self.shared_frame.set(frame, json_results)], reached only under
    [if self.shared_frame is not None]. *)
Definition shared_frame_set (frame : Frame Image)
    (json_results : JsonResults Boxes) : M unit :=
  with_self (fun c =>
    mkClient (frame_queue c)
             (match shared_frame c with
              | Some calls => Some ((frame, json_results) :: calls)
              | None => None
              end)
             (frame_id c)).

(** A [while] loop whose every turn looks at the front of the queue and pops
    it: a recursion [loop] on the queue, run on the client's queue. *)
Definition while_queue (loop : list E -> res unit * list E) : M unit :=
  fun w =>
    let (r, q) := loop (frame_queue (self w)) in
    (r, mkWorld (mkClient q (shared_frame (self w)) (frame_id (self w)))
                (stdout w)).

(** [json.loads(t)] *)
Definition json_loads (t : text Boxes) : M (JsonResults Boxes) :=
  match t with
  | NotJson => raise JSONDecodeError
  | Json r => ret r
  end.

End Monad.
Arguments M : clear implicits.

Declare Scope py_scope.
Delimit Scope py_scope with py.
Notation "x <- m ;; k" := (bind m (fun x => k))
  (at level 61, m at next level, right associativity) : py_scope.
Notation "m ;; k" := (bind m (fun _ => k))
  (at level 61, right associativity) : py_scope.

(** Concurrent calls of [detect].  Each event is one atomic stretch of some
    call: a new call running up to its [await] on the network, or a
    suspended call resumed with what came back ([X]).  An exception ends the
    call it was raised in and reaches that call's caller; the client object
    lives on. *)
Inductive event (Image X : Type) : Type :=
| Call (frame : Frame Image)
| Resume (x : X).
Arguments Call {Image X} _.
Arguments Resume {Image X} _.

Fixpoint run_events {Image Boxes E Ev A} (step : Ev -> M Image Boxes E A)
    (evs : list Ev) (w : World Image Boxes E)
  : list (res A) * World Image Boxes E :=
  match evs with
  | [] => ([], w)
  | ev :: evs' =>
      let (r, w') := step ev w in
      let (rs, w'') := run_events step evs' w' in
      (r :: rs, w'')
  end.

(** [is_local_service()]: [VISION_SERVICE_IP == 'localhost'], the address
    being read from the environment once, when the module is loaded. *)
Section Service.
Import String.
Definition is_local_service (VISION_SERVICE_IP : string) : bool :=
  String.eqb VISION_SERVICE_IP "localhost".
End Service.

(** [__init__]: an empty queue, the given shared frame, counter at 0. *)
Definition init {Image Boxes E}
    (shared_frame : option (SharedFrame Image Boxes)) : Client Image Boxes E :=
  mkClient [] shared_frame 0.

Definition boot {Image Boxes E}
    (shared_frame : option (SharedFrame Image Boxes)) : World Image Boxes E :=
  mkWorld (init shared_frame) [].

End Py.

(** ** [yolo_client.py]: class [YoloClient] *)

Module YoloClient.
Import Py.
Local Open Scope py_scope.

(** [requests.post] in [detect_local]: it raises, or returns a response. *)
Inductive post_result (Boxes : Type) : Type :=
| PostRaises
| PostReturns (t : text Boxes).
Arguments PostRaises {Boxes}.
Arguments PostReturns {Boxes} _.

(** One aiohttp exchange of the asynchronous path. *)
Inductive exchange (Boxes : Type) : Type :=
| FailsBeforeYield (timeout : bool)  (* connecting, posting or raise_for_status *)
| FailsReadingText (timeout : bool)  (* [await response.text()] *)
| Answers (t : text Boxes).
Arguments FailsBeforeYield {Boxes} _.
Arguments FailsReadingText {Boxes} _.
Arguments Answers {Boxes} _.

Section Methods.
Context {Image Boxes : Type}.
#[local] Abbreviation frame_t := (Frame Image).
#[local] Abbreviation results_t := (JsonResults Boxes).
(** Code of the local path, and code of the asynchronous path. *)
#[local] Abbreviation LM := (M Image Boxes frame_t).
#[local] Abbreviation AM := (M Image Boxes (Z * frame_t)).

Definition requests_post {E} (p : post_result Boxes)
  : M Image Boxes E (text Boxes) :=
  match p with
  | PostRaises => raise RequestException
  | PostReturns t => ret t
  end.

(** [detect_local] (lines 108-148).  [resize] and [image_to_bytes] do not
    touch the client; they are taken to succeed and left out. *)
Definition detect_local (frame : frame_t) (p : post_result Boxes)
  : LM unit :=
  try_except
    (match image frame with
     | None => print_t ImageIsNone
     | Some _ =>
         q_put frame ;;
         print_t SendingRequest ;;
         response <- requests_post p ;;
         print_t ResponseText ;;
         json_results <- json_loads response ;;
         sf <- read shared_frame ;;
         (match sf with
          | Some _ => f <- q_get ;; shared_frame_set f json_results
          | None => ret tt
          end) ;;
         incr_frame_id
     end)
    (fun e => print_t (ExceptionInDetectLocal e)).

(** The block under [async with self.frame_id_lock] (lines 185-197); its
    value is the ['image_id'] put into the request. *)
Definition dispatch (frame : frame_t)
  : AM Z :=
  id <- read frame_id ;;
  q_put (id, frame) ;;
  incr_frame_id ;;
  ret id.

(** [async with self.get_aiohttp_session_response(...) as response] with its
    body (lines 150-166, 199-203).  The generator catches every exception and
    prints: raised before its [yield], the generator ends without yielding
    and entering the block raises [RuntimeError]; raised by the body, it is
    swallowed on exit and [results] stays unbound ([None] here).  What the
    generator yields is never [None], so the [response is None] test of the
    body never holds. *)
Definition get_aiohttp_session_response {E} (x : exchange Boxes)
  : M Image Boxes E (option (text Boxes)) :=
  match x with
  | FailsBeforeYield timeout =>
      print_t (if timeout then TimeoutConnecting else ExceptionInAiohttp) ;;
      raise RuntimeError
  | FailsReadingText timeout =>
      print_t (if timeout then TimeoutConnecting else ExceptionInAiohttp) ;;
      ret None
  | Answers t => ret (Some t)
  end.

(** [while self.frame_queue.queue[0][0] < json_results.get('image_id', -1):
        self.frame_queue.get()]   (lines 214-215) *)
Fixpoint discard_old_images (json_results : results_t)
    (q : list (Z * frame_t)) : res unit * list (Z * frame_t) :=
  match q with
  | [] => (Exc IndexError, [])
  | e :: q' =>
      if fst e <? get_image_id json_results (-1)
      then discard_old_images json_results q'
      else (Val tt, q)
  end.

(** Lines 211-221. *)
Definition reconcile (json_results : results_t)
  : AM unit :=
  empty <- q_empty ;;
  if empty : bool then ret tt else
  while_queue (discard_old_images json_results) ;;
  front <- q_front ;;
  if fst front >? get_image_id json_results (-1) then ret tt else
  sf <- read shared_frame ;;
  match sf with
  | Some _ => e <- q_get ;; shared_frame_set (snd e) json_results
  | None => ret tt
  end.

(** [detect] up to its first suspension on the network: [None] when the call
    has already returned, [Some id] when it awaits the answer to request
    [id]. *)
Definition detect_until_await (frame : frame_t)
  : AM (option Z) :=
  match image frame with
  | None => print_t ImageIsNoneAsync ;; ret None
  | Some _ => id <- dispatch frame ;; ret (Some id)
  end.

(** [detect] from the exchange on (lines 199-221); the [try] around
    [json.loads] prints and returns. *)
Definition detect_after_await (x : exchange Boxes)
  : AM unit :=
  results <- get_aiohttp_session_response x ;;
  match results with
  | None => raise UnboundLocalError
  | Some t =>
      match t with
      | NotJson => print_t InvalidJSON
      | Json json_results => reconcile json_results
      end
  end.

(** The asynchronous branch of [detect], run without interleaving. *)
Definition detect_remote (frame : frame_t) (x : exchange Boxes)
  : AM unit :=
  pending <- detect_until_await frame ;;
  match pending with
  | None => ret tt
  | Some _ => detect_after_await x
  end.

(** [is_local_service()] compares a constant; a process only ever runs one
    branch of [detect], so the kind of queue element and of server answer is
    fixed by it. *)
Definition elem (is_local_service : bool) : Type :=
  if is_local_service then frame_t else (Z * frame_t)%type.

Definition answer (is_local_service : bool) : Type :=
  if is_local_service then post_result Boxes else exchange Boxes.

(** [detect] (lines 168-221), run without interleaving. *)
Definition detect (is_local_service : bool) (frame : frame_t)
  : answer is_local_service ->
    M Image Boxes (elem is_local_service) unit :=
  match is_local_service with
  | true => fun p => detect_local frame p
  | false => fun x => detect_remote frame x
  end.

(** One atomic stretch of a call of [detect] on the asynchronous path. *)
Definition step (ev : event Image (exchange Boxes)) : AM (option Z) :=
  match ev with
  | Call frame => detect_until_await frame
  | Resume x => detect_after_await x ;; ret None
  end.

Definition run := run_events step.

End Methods.
End YoloClient.

(** ** [yolo_grpc_client.py]: class [YoloGRPCClient] *)

Module YoloGRPCClient.
Import Py.
Local Open Scope py_scope.

(** One call on the stub ([DetectStream] or [Detect]): it raises, or returns
    a response whose [json_data] is the text. *)
Inductive rpc (Boxes : Type) : Type :=
| RpcRaises
| RpcReturns (json_data : text Boxes).
Arguments RpcRaises {Boxes}.
Arguments RpcReturns {Boxes} _.

Section Methods.
Context {Image Boxes : Type}.
#[local] Abbreviation frame_t := (Frame Image).
#[local] Abbreviation results_t := (JsonResults Boxes).
#[local] Abbreviation LM := (M Image Boxes frame_t).
#[local] Abbreviation AM := (M Image Boxes (Z * frame_t)).

Definition stub_call {E} (r : rpc Boxes) : M Image Boxes E (text Boxes) :=
  match r with
  | RpcRaises => raise RpcError
  | RpcReturns json_data => ret json_data
  end.

(** [detect_local] (lines 58-71): no [try], and no change of [frame_id]. *)
Definition detect_local (frame : frame_t) (r : rpc Boxes) : LM unit :=
  match image frame with
  | None => ret tt
  | Some _ =>
      q_put frame ;;
      json_data <- stub_call r ;;
      json_results <- json_loads json_data ;;
      sf <- read shared_frame ;;
      match sf with
      | Some _ =>
          empty <- q_empty ;;
          if empty : bool then ret tt
          else f <- q_get ;; shared_frame_set f json_results
      | None => ret tt
      end
  end.

(** The block under [async with self.frame_id_lock] (lines 87-90). *)
Definition dispatch (frame : frame_t) : AM Z :=
  image_id <- read frame_id ;;
  q_put (image_id, frame) ;;
  incr_frame_id ;;
  ret image_id.

(** [while not self.frame_queue.empty()
          and self.frame_queue.queue[0][0] < json_results['image_id']:
        self.frame_queue.get()]   (lines 100-101) *)
Fixpoint discard_old_images (json_results : results_t)
    (q : list (Z * frame_t)) : res unit * list (Z * frame_t) :=
  match q with
  | [] => (Val tt, [])
  | e :: q' =>
      match getitem_image_id json_results with
      | None => (Exc KeyError, q)
      | Some id =>
          if fst e <? id
          then discard_old_images json_results q'
          else (Val tt, q)
      end
  end.

Definition image_id_of (json_results : results_t) : AM Z :=
  match getitem_image_id json_results with
  | None => raise KeyError
  | Some id => ret id
  end.

(** Lines 96-108. *)
Definition reconcile (json_results : results_t) : AM unit :=
  empty <- q_empty ;;
  if empty : bool then ret tt else
  while_queue (discard_old_images json_results) ;;
  empty <- q_empty ;;
  if empty : bool then ret tt else
  front <- q_front ;;
  id <- image_id_of json_results ;;
  if fst front >? id then ret tt else
  sf <- read shared_frame ;;
  match sf with
  | Some _ => e <- q_get ;; shared_frame_set (snd e) json_results
  | None => ret tt
  end.

(** [detect] up to [await self.stub_async.Detect(...)].  [init_async_channel]
    only builds the stub and is left out. *)
Definition detect_until_await (frame : frame_t) : AM (option Z) :=
  match image frame with
  | None => ret None
  | Some _ => image_id <- dispatch frame ;; ret (Some image_id)
  end.

(** [detect] from the answer of the stub on (lines 93-108). *)
Definition detect_after_await (r : rpc Boxes) : AM unit :=
  json_data <- stub_call r ;;
  json_results <- json_loads json_data ;;
  reconcile json_results.

Definition detect_remote (frame : frame_t) (r : rpc Boxes) : AM unit :=
  pending <- detect_until_await frame ;;
  match pending with
  | None => ret tt
  | Some _ => detect_after_await r
  end.

Definition elem (is_local_service : bool) : Type :=
  if is_local_service then frame_t else (Z * frame_t)%type.

(** [detect] (lines 74-108), run without interleaving. *)
Definition detect (is_local_service : bool) (frame : frame_t) (r : rpc Boxes)
  : M Image Boxes (elem is_local_service) unit :=
  match is_local_service with
  | true => detect_local frame r
  | false => detect_remote frame r
  end.

Definition step (ev : event Image (rpc Boxes)) : AM (option Z) :=
  match ev with
  | Call frame => detect_until_await frame
  | Resume r => detect_after_await r ;; ret None
  end.

Definition run := run_events step.

End Methods.
End YoloGRPCClient.

(** ** Vocabulary of the statements *)

Module Engine.
Import Py.

Section Vocabulary.
Context {Image Boxes : Type}.
#[local] Abbreviation frame_t := (Frame Image).
#[local] Abbreviation results_t := (JsonResults Boxes).
#[local] Abbreviation AW := (World Image Boxes (Z * frame_t)).
#[local] Abbreviation LW := (World Image Boxes frame_t).

(** The ids waiting in the queue, front first. *)
Definition ids (w : AW) : list Z := map fst (frame_queue (self w)).

(** The same world with another queue. *)
Definition with_queue {E} (w : World Image Boxes E) (q : list E)
  : World Image Boxes E :=
  mkWorld (mkClient q (shared_frame (self w)) (frame_id (self w))) (stdout w).

(** The same world after one more [set] on the attached shared frame. *)
Definition published {E} (w : World Image Boxes E) (q : list E)
    (calls : SharedFrame Image Boxes) : World Image Boxes E :=
  mkWorld (mkClient q (Some calls) (frame_id (self w))) (stdout w).

(** Ids handed out, in the order of the calls. *)
Fixpoint assigned (rs : list (res (option Z))) : list Z :=
  match rs with
  | [] => []
  | Val (Some id) :: rs' => id :: assigned rs'
  | _ :: rs' => assigned rs'
  end.

(** The ids [0, 1, ..., n-1]. *)
Definition upto (n : nat) : list Z := map Z.of_nat (seq 0 n).

(** Queued ids are those of earlier dispatches and strictly ascend. *)
Definition ascending (w : AW) : Prop :=
  0 <= frame_id (self w) /\
  StronglySorted Z.lt (ids w) /\
  Forall (fun id => 0 <= id < frame_id (self w)) (ids w).


(** [n] calls of the local path, one after the other. *)
Fixpoint repeat_local {P}
    (detect_local : frame_t -> P -> M Image Boxes frame_t unit)
    (calls : list (frame_t * P)) (w : LW) : LW :=
  match calls with
  | [] => w
  | (frame, p) :: calls' =>
      repeat_local detect_local calls' (snd (detect_local frame p w))
  end.

(** The calls of the local path that go through: the frame has an image
    and the server answers with a JSON dict. *)
Definition http_calls (ok : list (Image * results_t))
  : list (frame_t * YoloClient.post_result Boxes) :=
  map (fun c =>
         (mkFrame (Some (fst c)), YoloClient.PostReturns (Json (snd c))))
      ok.

Definition grpc_calls (ok : list (Image * results_t))
  : list (frame_t * YoloGRPCClient.rpc Boxes) :=
  map (fun c =>
         (mkFrame (Some (fst c)), YoloGRPCClient.RpcReturns (Json (snd c))))
      ok.

(** What these calls publish, the latest first: each frame with the answer
    to its own request. *)
Definition own_pairs (ok : list (Image * results_t))
  : SharedFrame Image Boxes :=
  rev (map (fun c => (mkFrame (Some (fst c)), snd c)) ok).

(** The frames that get an id: those of the calls whose frame has an image. *)
Fixpoint dispatched {X} (evs : list (event Image X)) : list frame_t :=
  match evs with
  | [] => []
  | Call frame :: evs' =>
      match image frame with
      | Some _ => frame :: dispatched evs'
      | None => dispatched evs'
      end
  | Resume _ :: evs' => dispatched evs'
  end.

(** Frames numbered from [start] on. *)
Fixpoint number (start : nat) (frames : list frame_t) : list (Z * frame_t) :=
  match frames with
  | [] => []
  | frame :: frames' => (Z.of_nat start, frame) :: number (S start) frames'
  end.

(** Every envelope ever enqueued, in dispatch order. *)
Definition history (frames : list frame_t) : list (Z * frame_t) :=
  number 0 frames.

(** The counter has counted the dispatched [frames], and the queue is what
    is left of their envelopes after some were taken from the front. *)
Definition tail_of_history (frames : list frame_t) (w : AW) : Prop :=
  frame_id (self w) = Z.of_nat (length frames) /\
  exists gone, history frames = gone ++ frame_queue (self w).

(** What one event may do to the counter and the queue: a call whose frame
    has an image takes the counter as its id, enqueues the pair at the back
    and moves the counter on; anything else hands out no id, leaves the
    counter alone and at most takes envelopes from the front. *)
Definition step_effect {X} (ev : event Image X) (w : AW)
    (out : res (option Z) * AW) : Prop :=
  match ev with
  | Call frame =>
      match image frame with
      | Some _ =>
          fst out = Val (Some (frame_id (self w))) /\
          frame_queue (self (snd out))
          = frame_queue (self w) ++ [(frame_id (self w), frame)] /\
          frame_id (self (snd out)) = frame_id (self w) + 1 /\
          shared_frame (self (snd out)) = shared_frame (self w)
      | None => fst out = Val None /\ self (snd out) = self w
      end
  | Resume _ =>
      assigned [fst out] = [] /\
      frame_id (self (snd out)) = frame_id (self w) /\
      exists gone,
        frame_queue (self w) = gone ++ frame_queue (self (snd out))
  end.

(** An exchange of the asynchronous HTTP path that fails in transport. *)
Definition transport_failure (x : YoloClient.exchange Boxes) : Prop :=
  match x with
  | YoloClient.Answers _ => False
  | _ => True
  end.

(** A [requests.post] of the local path that fails, in transport or in
    decoding. *)
Definition failed_post (p : YoloClient.post_result Boxes) : Prop :=
  match p with
  | YoloClient.PostReturns (Json _) => False
  | _ => True
  end.


(** The event is the arrival of a result whose id is above [k]. *)
Definition higher_result (k : Z)
    (ev : event Image (YoloClient.exchange Boxes)) : bool :=
  match ev with
  | Resume (YoloClient.Answers (Json r)) =>
      match image_id r with
      | Some id => k <? id
      | None => false
      end
  | _ => false
  end.

(** The event is the arrival of a result carrying id [k] itself. *)
Definition result_for (k : Z)
    (ev : event Image (YoloClient.exchange Boxes)) : Prop :=
  match ev with
  | Resume (YoloClient.Answers (Json r)) => image_id r = Some k
  | _ => False
  end.

End Vocabulary.

(** Concrete frames and results for the examples: the image of a frame is a
    number, the payload of a result is empty. *)
Definition frame_n (n : nat) : Frame nat := mkFrame (Some n).
Definition result_n (id : Z) : JsonResults unit := mkResults (Some id) tt.
Definition result_without_id : JsonResults unit := mkResults None tt.

End Engine.

(** ** Vocabulary for what the asynchronous path publishes *)

Module Correlation.
Import Py Engine.

Section Vocabulary.
Context {Image Boxes : Type}.
#[local] Abbreviation frame_t := (Frame Image).
#[local] Abbreviation results_t := (JsonResults Boxes).
#[local] Abbreviation AW := (World Image Boxes (Z * frame_t)).

(** The id a published result carries. *)
Definition result_id (p : frame_t * results_t) : Z :=
  get_image_id (snd p) (-1).

(** The ids of the published results, the latest first. *)
Definition published_ids (calls : SharedFrame Image Boxes) : list Z :=
  map result_id calls.

(** A published pair is the frame dispatched under the id of its result:
    [frames] being the dispatched frames in order, the result carries an id
    and the frame is the one at that position. *)
Definition correlated (frames : list frame_t) (p : frame_t * results_t)
  : Prop :=
  exists id,
    image_id (snd p) = Some id /\
    0 <= id /\
    nth_error frames (Z.to_nat id) = Some (fst p).

(** What a stretch of code did to the shared frame, from [w] to [w']:
    nothing, or one [set] with the frame of a queued envelope and a result
    of the same id, that envelope and all before it being gone from the
    queue. *)
Definition publication (w w' : AW) : Prop :=
  shared_frame (self w') = shared_frame (self w) \/
  exists calls id f r older,
    shared_frame (self w) = Some calls /\
    shared_frame (self w') = Some ((f, r) :: calls) /\
    image_id r = Some id /\
    frame_queue (self w) = older ++ (id, f) :: frame_queue (self w').

(** The state of a client started with shared frame [sf], after the
    [frames] were dispatched and the pairs [new] (latest first) published:
    the queue is a tail of the history, the published pairs are correlated,
    and the ids published, in the order of publication, followed by the ids
    still queued, strictly ascend. *)
Definition settled (sf : option (SharedFrame Image Boxes))
    (frames : list frame_t) (new : SharedFrame Image Boxes) (w : AW)
  : Prop :=
  tail_of_history frames w /\
  shared_frame (self w) = option_map (fun calls => new ++ calls) sf /\
  Forall (correlated frames) new /\
  StronglySorted Z.lt (rev (published_ids new) ++ ids w).

(** A call on the gRPC stub that fails, in transport or in decoding. *)
Definition failed_rpc (x : YoloGRPCClient.rpc Boxes) : Prop :=
  match x with
  | YoloGRPCClient.RpcReturns (Json _) => False
  | _ => True
  end.

End Vocabulary.
End Correlation.

(** ** [llm_wrapper.py], [voice_main.py] and [main.py]: the voice commands

    The speech model, the recorder ([audiorecorder.py]: threads and the
    sound card), the chat service and the clock are outside; what they give
    to one call is an argument of the call. *)

Module Voice.

(** A Python [str]: its code points. *)
Definition str : Type := list N.

Section Literals.
Import String.
Definition py (s : string) : str :=
  map Ascii.N_of_ascii (list_ascii_of_string s).

Definition Error_prefix : str := py "Error:".
Definition audio_not_available : str :=
  py "Error: Audio functionality not available".
Definition could_not_record : str := py "Error: Could not record audio".
Definition could_not_transcribe : str :=
  py "Error: Could not transcribe audio".
Definition voice_not_available : str := py "Voice functionality not available".
Definition could_not_process : str := py "Could not process voice input".
Definition voice_command_processed : str := py "Voice command processed".
Definition processing : str := py "processing".
Definition space : str := py " ".
Definition base : str := py "base".
(** Texts for the examples. *)
Definition a_wav : str := py "a.wav".
Definition hello : str := py "hello".
End Literals.

(** [s.startswith(prefix)] *)
Fixpoint startswith (s prefix : str) : bool :=
  match prefix with
  | [] => true
  | p :: prefix' =>
      match s with
      | [] => false
      | c :: s' => (c =? p)%N && startswith s' prefix'
      end
  end.

(** [sep.join(parts)] *)
Fixpoint join (sep : str) (parts : list str) : str :=
  match parts with
  | [] => []
  | [p] => p
  | p :: parts' => p ++ sep ++ join sep parts'
  end.

(** Equality of strings, for [os.path.exists]. *)
Definition str_eqb (a b : str) : bool :=
  if list_eq_dec N.eq_dec a b then true else false.

Inductive exn : Type :=
| NameError        (* [DroneWrapper] was never bound *)
| AttributeError   (* [startswith] on something that is not a [str] *)
| WhisperError     (* loading or running the speech model failed *)
| AudioError       (* opening the recorder, or recording, failed *)
| ChatError.       (* [ollama.chat] failed, or its answer had no content *)

Inductive res (A : Type) : Type :=
| Ok (a : A)
| Raised (e : exn).
Arguments Ok {A} _.
Arguments Raised {A} _.

Inductive line : Type :=
| LoadingWhisper | WhisperLoaded (size : str) | AudioEnabled
| AudioInitFailed (e : exn) | TextOnlyMode
| ProcessingAudio | DetectedLanguage | TranscriptionError (e : exn)
| StartingVoiceChat | YouSaid (text : str) | CleanedUp | VoiceChatError (e : exn)
| SpeakYourCommand | Processing (command : str)
| Initializing | Rule | UsingVirtualRobot
| Listening | ExampleCommands | VoiceCommandError (e : exn)
| Interpretation (task : str) | VirtualExecuting | VirtualCompleted
| RealNotImplemented
| TaskHistoryHeader | NoTasksYet
| HistoryEntry (i : nat) (shown : str).

Inductive WhisperModel : Type := Whisper (size : str).
Inductive AudioRecorder : Type := Recorder.

(** [LLMWrapper]; its [temperature] is stored and never read. *)
Record LLMWrapper : Type := mkLLM {
  enable_audio : bool;
  whisper_model : option WhisperModel;
  audio_recorder : option AudioRecorder
}.

(** What [audio_recorder.record_and_save] does: it raises; it cannot save
    and returns [None], having created the file or not; or it returns the
    name of the file it wrote. *)
Inductive recording : Type :=
| RecordRaises
| SaveFails (path : str) (created : bool)
| Saved (path : str).

(** What [whisper_model.transcribe] gives: an exception, there or while the
    segments are read, or the texts of the segments. *)
Inductive transcription : Type :=
| TranscribeRaises
| Segments (texts : list str).

(** What [ollama.chat] gives. *)
Inductive chat : Type :=
| ChatRaises
| ChatReturns (content : str).

(** What [request] returns: the content, or with [stream=True] the stream
    object. *)
Inductive response : Type :=
| Text (s : str)
| Stream.

Section Process.
(** [isspace c]: whether [str.strip] removes the code point.  [Time]: what
    [time.time()] returns. *)
Context (isspace : N -> bool) {Time : Type}.

Fixpoint lstrip (s : str) : str :=
  match s with
  | [] => []
  | c :: s' => if isspace c then lstrip s' else s
  end.

(** [s.strip()] *)
Definition strip (s : str) : str := rev (lstrip (rev (lstrip s))).

(** An entry of [task_history]. *)
Record Task : Type := mkTask {
  timestamp : Time;
  task : str;
  status : str
}.

(** The wrapper, the attributes of a controller, the files on disk and the
    terminal. *)
Record Env : Type := mkEnv {
  llm : LLMWrapper;
  use_virtual_robot : bool;
  task_history : list Task;
  files : list str;
  stdout : list line
}.

Definition V (A : Type) : Type := Env -> res A * Env.

Definition ret {A} (a : A) : V A := fun s => (Ok a, s).

Definition bind {A B} (m : V A) (k : A -> V B) : V B :=
  fun s =>
    match m s with
    | (Ok a, s') => k a s'
    | (Raised e, s') => (Raised e, s')
    end.

Definition raise {A} (e : exn) : V A := fun s => (Raised e, s).

Definition try_except {A} (m : V A) (h : exn -> V A) : V A :=
  fun s =>
    match m s with
    | (Raised e, s') => h e s'
    | r => r
    end.

Definition get {A} (f : Env -> A) : V A := fun s => (Ok (f s), s).

Definition print (l : line) : V unit :=
  fun s =>
    (Ok tt,
     mkEnv (llm s) (use_virtual_robot s) (task_history s) (files s)
       (stdout s ++ [l])).

Definition set_llm (l : LLMWrapper) : V unit :=
  fun s =>
    (Ok tt,
     mkEnv l (use_virtual_robot s) (task_history s) (files s) (stdout s)).

Definition set_files (fs : list str) : V unit :=
  fun s =>
    (Ok tt,
     mkEnv (llm s) (use_virtual_robot s) (task_history s) fs (stdout s)).

Definition set_use_virtual_robot (b : bool) : V unit :=
  fun s => (Ok tt, mkEnv (llm s) b (task_history s) (files s) (stdout s)).

Definition set_task_history (h : list Task) : V unit :=
  fun s =>
    (Ok tt, mkEnv (llm s) (use_virtual_robot s) h (files s) (stdout s)).

Local Notation "x <- m ;; k" := (bind m (fun x => k))
  (at level 61, m at next level, right associativity).
Local Notation "m ;; k" := (bind m (fun _ => k))
  (at level 61, right associativity).

(** [os.path.exists(path)] *)
Definition path_exists (path : str) : V bool :=
  get (fun s => existsb (str_eqb path) (files s)).

(** [os.remove(path)] on a file that exists; it is taken to succeed. *)
Definition os_remove (path : str) : V unit :=
  fs <- get files ;;
  set_files (filter (fun f => negb (str_eqb path f)) fs).

(** [LLMWrapper._initialize_audio] (lines 22-32 of [llm_wrapper.py]). *)
Definition initialize_audio (whisper_model_size : str)
    (whisper_loads recorder_opens : bool) : V unit :=
  try_except
    (print LoadingWhisper ;;
     (if whisper_loads then
        l <- get llm ;;
        set_llm (mkLLM (enable_audio l)
                   (Some (Whisper whisper_model_size)) (audio_recorder l))
      else raise WhisperError) ;;
     (if recorder_opens then
        l <- get llm ;;
        set_llm (mkLLM (enable_audio l) (whisper_model l) (Some Recorder))
      else raise AudioError) ;;
     print (WhisperLoaded whisper_model_size) ;;
     print AudioEnabled)
    (fun e =>
       print (AudioInitFailed e) ;;
       print TextOnlyMode ;;
       l <- get llm ;;
       set_llm (mkLLM false (whisper_model l) (audio_recorder l))).

(** [LLMWrapper.__init__] (lines 13-20). *)
Definition LLMWrapper_init (whisper_model_size : str) (enable : bool)
    (whisper_loads recorder_opens : bool) : V unit :=
  set_llm (mkLLM enable None None) ;;
  if enable
  then initialize_audio whisper_model_size whisper_loads recorder_opens
  else ret tt.

(** [LLMWrapper.transcribe_audio] (lines 34-46); [None] is Python's
    [None]. *)
Definition transcribe_audio (t : transcription) : V (option str) :=
  l <- get llm ;;
  if negb (enable_audio l) ||
     match whisper_model l with None => true | Some _ => false end
  then ret (Some audio_not_available)
  else
    try_except
      (print ProcessingAudio ;;
       texts <- match t with
                | TranscribeRaises => raise WhisperError
                | Segments texts => ret texts
                end ;;
       let full_transcription := join space texts in
       print DetectedLanguage ;;
       ret (Some (strip full_transcription)))
      (fun e => print (TranscriptionError e) ;; ret None).

(** [LLMWrapper.request] (lines 77-83). *)
Definition request (stream : bool) (c : chat) : V response :=
  match c with
  | ChatRaises => raise ChatError
  | ChatReturns content => ret (if stream then Stream else Text content)
  end.

(** [audio_recorder.record_and_save] ([audiorecorder.py], lines 69-85): its
    value, and the file it leaves. *)
Definition record_and_save (r : recording) : V (option str) :=
  match r with
  | RecordRaises => raise AudioError
  | SaveFails path created =>
      fs <- get files ;;
      (if created && negb (existsb (str_eqb path) fs)
       then set_files (path :: fs) else ret tt) ;;
      ret None
  | Saved path =>
      fs <- get files ;;
      (if existsb (str_eqb path) fs then ret tt else set_files (path :: fs)) ;;
      ret (Some path)
  end.

(** [LLMWrapper.voice_chat] (lines 48-75). *)
Definition voice_chat (stream : bool) (r : recording) (t : transcription)
    (c : chat) : V (option response) :=
  l <- get llm ;;
  if negb (enable_audio l) ||
     match audio_recorder l with None => true | Some _ => false end
  then ret (Some (Text audio_not_available))
  else
    print StartingVoiceChat ;;
    audio_file <- record_and_save r ;;
    match audio_file with
    | None => ret (Some (Text could_not_record))
    | Some audio_file =>
        try_except
          (transcribed_text <- transcribe_audio t ;;
           match transcribed_text with
           | None => ret (Some (Text could_not_transcribe))
           | Some text =>
               if startswith text Error_prefix
               then ret (Some (Text could_not_transcribe))
               else
                 print (YouSaid text) ;;
                 response <- request stream c ;;
                 there <- path_exists audio_file ;;
                 (if there : bool
                  then os_remove audio_file ;; print CleanedUp
                  else ret tt) ;;
                 ret (Some response)
           end)
          (fun e =>
             print (VoiceChatError e) ;;
             there <- path_exists audio_file ;;
             (if match audio_file with [] => false | _ => there end
              then os_remove audio_file else ret tt) ;;
             ret None)
    end.

(** [if x and not x.startswith("Error:")] on what [voice_chat] returned:
    [None] and the empty string are false; a stream has no [startswith]. *)
Definition usable (x : option response) : res bool :=
  match x with
  | None => Ok false
  | Some (Text []) => Ok false
  | Some (Text s) => Ok (negb (startswith s Error_prefix))
  | Some Stream => Raised AttributeError
  end.

Definition check_usable (x : option response) : V bool :=
  match usable x with
  | Ok b => ret b
  | Raised e => raise e
  end.

(** [VoiceTypeFlyCont.execute_drone_task] (lines 60-71 of [voice_main.py]);
    the two seconds of sleep are left out. *)
Definition execute_drone_task (now : Time) (task_description : str)
  : V bool :=
  print (Interpretation task_description) ;;
  h <- get task_history ;;
  set_task_history (h ++ [mkTask now task_description processing]) ;;
  virtual <- get use_virtual_robot ;;
  if virtual : bool
  then print VirtualExecuting ;; print VirtualCompleted ;; ret true
  else print RealNotImplemented ;; ret false.

(** The second item of what [process_voice_command] returns: a text, or
    [str(e)] of an exception. *)
Inductive message : Type :=
| Said (r : response)
| Fixed (s : str)
| StrOf (e : exn).

(** [VoiceTypeFlyCont.process_voice_command] (lines 42-58). *)
Definition process_voice_command (now : Time) (r : recording)
    (t : transcription) (c : chat) : V (option str * message * bool) :=
  l <- get llm ;;
  if negb (enable_audio l)
  then ret (None, Fixed voice_not_available, false)
  else
    print Listening ;;
    print ExampleCommands ;;
    try_except
      (response <- voice_chat false r t c ;;
       ok <- check_usable response ;;
       match ok, response with
       | true, Some (Text s) =>
           success <- execute_drone_task now s ;;
           ret (Some voice_command_processed, Said (Text s), success)
       | _, _ => ret (None, Fixed could_not_process, false)
       end)
      (fun e =>
         print (VoiceCommandError e) ;;
         ret (None, StrOf e, false)).




(** [VoiceTypeFlyCont.__init__] (lines 21-40).  [import_failed]: whether
    the import of the robot wrapper failed, which alone binds
    [DroneWrapper], to [None]; [self.drone] is set to [None] and not
    touched again, and is left out. *)
Definition VoiceTypeFlyCont_init (import_failed : bool) (virtual : bool)
    (whisper_loads recorder_opens : bool) : V unit :=
  print Initializing ;;
  print Rule ;;
  LLMWrapper_init base true whisper_loads recorder_opens ;;
  set_use_virtual_robot virtual ;;
  (if import_failed then print UsingVirtualRobot else raise NameError) ;;
  set_task_history [].

(** [TypeFlyController.process_voice_command] of [main.py] (lines 8-16);
    its [execute_drone_task] is [pass].  The value is what the method
    returns, [None] being Python's [None]. *)
Definition main_process_voice_command (r : recording) (t : transcription)
    (c : chat) : V (option unit) :=
  print SpeakYourCommand ;;
  command <- voice_chat false r t c ;;
  ok <- check_usable command ;;
  match ok, command with
  | true, Some (Text s) => print (Processing s) ;; ret None
  | _, _ => ret None
  end.

(** The text a voice chat goes on with after recording: the speech model
    is there, it gives segments, and their joined and stripped text does not
    start with ["Error:"]. *)
Definition heard (l : LLMWrapper) (t : transcription) : option str :=
  match whisper_model l, t with
  | Some _, Segments texts =>
      let text := strip (join space texts) in
      if startswith text Error_prefix then None else Some text
  | _, _ => None
  end.

(** The content that reaches the drone: audio is enabled, the recorder is
    there and saves its file, something was heard, and the chat returns a
    content that is not empty and does not start with ["Error:"]. *)
Definition command_of (l : LLMWrapper) (r : recording) (t : transcription)
    (c : chat) : option str :=
  match enable_audio l, audio_recorder l, r, heard l t, c with
  | true, Some _, Saved _, Some _, ChatReturns (ch :: content) =>
      if startswith (ch :: content) Error_prefix then None
      else Some (ch :: content)
  | _, _, _, _, _ => None
  end.

(** Whether a printed line is the "Processing: ..." of [main.py]. *)
Definition is_processing (l : line) : bool :=
  match l with
  | Processing _ => true
  | _ => false
  end.

(** Whether a file is on disk. *)
Definition on_disk (path : str) (s : Env) : bool :=
  existsb (str_eqb path) (files s).

End Process.
End Voice.

(** ** The reconciliation step *)

Import Py Engine.

(** Unfold the monad, leaving the loops folded. *)
Ltac run_py :=
  cbv [bind ret raise read with_self q_empty q_front q_get try_except
       shared_frame_set while_queue print_t incr_frame_id q_put json_loads
       self frame_queue shared_frame frame_id stdout
       with_queue published].

Section Reconcile.
Context {Image Boxes : Type}.
#[local] Abbreviation frame_t := (Frame Image).
#[local] Abbreviation results_t := (JsonResults Boxes).
#[local] Abbreviation AW := (World Image Boxes (Z * frame_t)).
Implicit Types (w : AW) (r : results_t) (q older rest : list (Z * frame_t))
  (e : Z * frame_t).

(** The HTTP loop stops at the first envelope that is not older. *)
Lemma http_loop_stops r older e rest :
  Forall (fun x => fst x < get_image_id r (-1)) older ->
  get_image_id r (-1) <= fst e ->
  YoloClient.discard_old_images r (older ++ e :: rest) = (Val tt, e :: rest).
Proof.
  intros Hold He. induction Hold as [|x older Hx _ IH]; simpl.
  - destruct (Z.ltb_spec (fst e) (get_image_id r (-1))); [lia | reflexivity].
  - destruct (Z.ltb_spec (fst x) (get_image_id r (-1))); [exact IH | lia].
Qed.

(** When every envelope is older the HTTP loop runs off the empty queue. *)
Lemma http_loop_drains r q :
  Forall (fun x => fst x < get_image_id r (-1)) q ->
  YoloClient.discard_old_images r q = (Exc IndexError, []).
Proof.
  induction 1 as [|x q Hx _ IH]; simpl; [reflexivity|].
  destruct (Z.ltb_spec (fst x) (get_image_id r (-1))); [exact IH | lia].
Qed.

Lemma grpc_loop_stops r id older e rest :
  image_id r = Some id ->
  Forall (fun x => fst x < id) older ->
  id <= fst e ->
  YoloGRPCClient.discard_old_images r (older ++ e :: rest)
  = (Val tt, e :: rest).
Proof.
  intros Hid Hold He. induction Hold as [|x older Hx _ IH]; simpl;
    unfold getitem_image_id; rewrite Hid.
  - destruct (Z.ltb_spec (fst e) id); [lia | reflexivity].
  - destruct (Z.ltb_spec (fst x) id); [exact IH | lia].
Qed.

(** The gRPC loop tests for emptiness and ends quietly. *)
Lemma grpc_loop_drains r id q :
  image_id r = Some id ->
  Forall (fun x => fst x < id) q ->
  YoloGRPCClient.discard_old_images r q = (Val tt, []).
Proof.
  intros Hid. induction 1 as [|x q Hx _ IH]; simpl; [reflexivity|].
  unfold getitem_image_id; rewrite Hid.
  destruct (Z.ltb_spec (fst x) id); [exact IH | lia].
Qed.

(** Every queue is a run of older envelopes followed by nothing, or by an
    envelope that is not older. *)
Lemma split_older (bound : Z) q :
  exists older rest,
    q = older ++ rest /\
    Forall (fun x => fst x < bound) older /\
    match rest with [] => True | e :: _ => bound <= fst e end.
Proof.
  induction q as [|x q (older & rest & -> & Hold & Hrest)].
  - exists [], []. repeat split; constructor.
  - destruct (Z.lt_ge_cases (fst x) bound) as [Hlt | Hge].
    + exists (x :: older), rest. repeat split; [constructor|]; assumption.
    + exists [], (x :: older ++ rest). repeat split; [constructor | exact Hge].
Qed.

(** The HTTP step in one piece: the outcome of the loop decides. *)
Lemma http_reconcile_unfold r w :
  YoloClient.reconcile r w =
  match frame_queue (self w) with
  | [] => (Val tt, w)
  | _ :: _ =>
      match YoloClient.discard_old_images r (frame_queue (self w)) with
      | (Val _, []) => (Exc IndexError, with_queue w [])
      | (Val _, e :: rest) =>
          if fst e >? get_image_id r (-1)
          then (Val tt, with_queue w (e :: rest))
          else
            match shared_frame (self w) with
            | Some calls => (Val tt, published w rest ((snd e, r) :: calls))
            | None => (Val tt, with_queue w (e :: rest))
            end
      | (Exc ex, q') => (Exc ex, with_queue w q')
      | (Blocked, q') => (Blocked, with_queue w q')
      end
  end.
Proof.
  destruct w as [[q sf n] out]. destruct q as [|x q]; [reflexivity|].
  unfold YoloClient.reconcile. run_py.
  destruct (YoloClient.discard_old_images r (x :: q)) as [[[]|ex|] [|e rest]];
    try reflexivity.
  destruct (fst e >? get_image_id r (-1)); [reflexivity|].
  destruct sf; reflexivity.
Qed.

(** The gRPC step in one piece. *)
Lemma grpc_reconcile_unfold r w :
  YoloGRPCClient.reconcile r w =
  match frame_queue (self w) with
  | [] => (Val tt, w)
  | _ :: _ =>
      match YoloGRPCClient.discard_old_images r (frame_queue (self w)) with
      | (Val _, []) => (Val tt, with_queue w [])
      | (Val _, e :: rest) =>
          match image_id r with
          | None => (Exc KeyError, with_queue w (e :: rest))
          | Some id =>
              if fst e >? id
              then (Val tt, with_queue w (e :: rest))
              else
                match shared_frame (self w) with
                | Some calls =>
                    (Val tt, published w rest ((snd e, r) :: calls))
                | None => (Val tt, with_queue w (e :: rest))
                end
          end
      | (Exc ex, q') => (Exc ex, with_queue w q')
      | (Blocked, q') => (Blocked, with_queue w q')
      end
  end.
Proof.
  destruct w as [[q sf n] out]. destruct q as [|x q]; [reflexivity|].
  unfold YoloGRPCClient.reconcile. run_py.
  destruct (YoloGRPCClient.discard_old_images r (x :: q))
    as [[[]|ex|] [|e rest]]; try reflexivity.
  unfold YoloGRPCClient.image_id_of, getitem_image_id. run_py.
  destruct (image_id r) as [id|]; [|reflexivity].
  destruct (fst e >? id); [reflexivity|].
  destruct sf; reflexivity.
Qed.

Lemma http_reconcile_empty r w :
  frame_queue (self w) = [] ->
  YoloClient.reconcile r w = (Val tt, w).
Proof.
  intros Hq. rewrite http_reconcile_unfold, Hq. reflexivity.
Qed.

Lemma http_reconcile_drained r w :
  frame_queue (self w) <> [] ->
  Forall (fun x => fst x < get_image_id r (-1)) (frame_queue (self w)) ->
  YoloClient.reconcile r w = (Exc IndexError, with_queue w []).
Proof.
  intros Hne Hall. rewrite http_reconcile_unfold.
  rewrite (http_loop_drains r _ Hall).
  destruct (frame_queue (self w)); [congruence | reflexivity].
Qed.

Lemma http_reconcile_stale r w older e rest :
  frame_queue (self w) = older ++ e :: rest ->
  Forall (fun x => fst x < get_image_id r (-1)) older ->
  get_image_id r (-1) < fst e ->
  YoloClient.reconcile r w = (Val tt, with_queue w (e :: rest)).
Proof.
  intros Hq Hold He. rewrite http_reconcile_unfold, Hq.
  rewrite (http_loop_stops r older e rest Hold) by lia.
  destruct (Z.gtb_spec (fst e) (get_image_id r (-1))); [|lia].
  destruct older; reflexivity.
Qed.

Lemma http_reconcile_match r w older e rest :
  frame_queue (self w) = older ++ e :: rest ->
  Forall (fun x => fst x < get_image_id r (-1)) older ->
  fst e = get_image_id r (-1) ->
  YoloClient.reconcile r w =
  (Val tt,
   match shared_frame (self w) with
   | Some calls => published w rest ((snd e, r) :: calls)
   | None => with_queue w (e :: rest)
   end).
Proof.
  intros Hq Hold He. rewrite http_reconcile_unfold, Hq.
  rewrite (http_loop_stops r older e rest Hold) by lia.
  destruct (Z.gtb_spec (fst e) (get_image_id r (-1))); [lia|].
  destruct older; destruct (shared_frame (self w)); reflexivity.
Qed.

Lemma grpc_reconcile_empty r w :
  frame_queue (self w) = [] ->
  YoloGRPCClient.reconcile r w = (Val tt, w).
Proof.
  intros Hq. rewrite grpc_reconcile_unfold, Hq. reflexivity.
Qed.

Lemma grpc_reconcile_no_key r w :
  frame_queue (self w) <> [] ->
  image_id r = None ->
  YoloGRPCClient.reconcile r w = (Exc KeyError, w).
Proof.
  intros Hne Hid. rewrite grpc_reconcile_unfold.
  destruct w as [[q sf n] out]; simpl in *.
  destruct q as [|x q]; [congruence|]. simpl.
  unfold getitem_image_id. rewrite Hid. reflexivity.
Qed.

Lemma grpc_reconcile_drained r id w :
  image_id r = Some id ->
  frame_queue (self w) <> [] ->
  Forall (fun x => fst x < id) (frame_queue (self w)) ->
  YoloGRPCClient.reconcile r w = (Val tt, with_queue w []).
Proof.
  intros Hid Hne Hall. rewrite grpc_reconcile_unfold.
  rewrite (grpc_loop_drains r id _ Hid Hall).
  destruct (frame_queue (self w)); [congruence | reflexivity].
Qed.

Lemma grpc_reconcile_stale r id w older e rest :
  image_id r = Some id ->
  frame_queue (self w) = older ++ e :: rest ->
  Forall (fun x => fst x < id) older ->
  id < fst e ->
  YoloGRPCClient.reconcile r w = (Val tt, with_queue w (e :: rest)).
Proof.
  intros Hid Hq Hold He. rewrite grpc_reconcile_unfold, Hq, Hid.
  rewrite (grpc_loop_stops r id older e rest Hid Hold) by lia.
  destruct (Z.gtb_spec (fst e) id); [|lia].
  destruct older; reflexivity.
Qed.

Lemma grpc_reconcile_match r id w older e rest :
  image_id r = Some id ->
  frame_queue (self w) = older ++ e :: rest ->
  Forall (fun x => fst x < id) older ->
  fst e = id ->
  YoloGRPCClient.reconcile r w =
  (Val tt,
   match shared_frame (self w) with
   | Some calls => published w rest ((snd e, r) :: calls)
   | None => with_queue w (e :: rest)
   end).
Proof.
  intros Hid Hq Hold He. rewrite grpc_reconcile_unfold, Hq, Hid.
  rewrite (grpc_loop_stops r id older e rest Hid Hold) by lia.
  destruct (Z.gtb_spec (fst e) id); [lia|].
  destruct older; destruct (shared_frame (self w)); reflexivity.
Qed.

End Reconcile.

(** ** Claims about one reconciliation step *)

Section ReconcileClaims.
Context {Image Boxes : Type}.
#[local] Abbreviation frame_t := (Frame Image).
#[local] Abbreviation results_t := (JsonResults Boxes).
#[local] Abbreviation AW := (World Image Boxes (Z * frame_t)).
Implicit Types (w : AW) (r : results_t) (q older rest : list (Z * frame_t))
  (e : Z * frame_t).

Lemma with_queue_same {E} (w : World Image Boxes E) :
  with_queue w (frame_queue (self w)) = w.
Proof. destruct w as [[q sf n] out]. reflexivity. Qed.

(** C4 (as amended): when, after the pop loop, the front envelope carries the
    id of the result, the envelope is popped and its frame published with
    the result if a shared frame is attached; without one nothing is
    published and the envelope stays at the front of the queue.  Both clients
    agree. *)
Theorem C4_match_pops_and_publishes_with_slot w r id older f rest :
  image_id r = Some id ->
  frame_queue (self w) = older ++ (id, f) :: rest ->
  Forall (fun x => fst x < id) older ->
  let after :=
    match shared_frame (self w) with
    | Some calls => published w rest ((f, r) :: calls)
    | None => with_queue w ((id, f) :: rest)
    end in
  YoloClient.reconcile r w = (Val tt, after) /\
  YoloGRPCClient.reconcile r w = (Val tt, after).
Proof.
  intros Hid Hq Hold after. split.
  - assert (Hget : get_image_id r (-1) = id)
      by (unfold get_image_id; rewrite Hid; reflexivity).
    apply (http_reconcile_match r w older (id, f) rest Hq).
    + rewrite Hget. exact Hold.
    + rewrite Hget. reflexivity.
  - exact (grpc_reconcile_match r id w older (id, f) rest Hid Hq Hold eq_refl).
Qed.

(** C10: a result without ['image_id'] counts as id -1 in the HTTP client;
    on a non-empty queue of natural-number ids the pop loop removes nothing,
    the result is dropped by the front-id-greater test and the queue is left
    as it was. *)
Theorem C10_missing_image_id_is_minus_one w r :
  image_id r = None ->
  frame_queue (self w) <> [] ->
  Forall (fun x => 0 <= fst x) (frame_queue (self w)) ->
  get_image_id r (-1) = -1 /\
  YoloClient.discard_old_images r (frame_queue (self w))
  = (Val tt, frame_queue (self w)) /\
  YoloClient.reconcile r w = (Val tt, w).
Proof.
  intros Hid Hne Hnat.
  assert (Hget : get_image_id r (-1) = -1)
    by (unfold get_image_id; rewrite Hid; reflexivity).
  destruct (frame_queue (self w)) as [|e rest] eqn:Hq; [congruence|].
  assert (He : 0 <= fst e) by (inversion Hnat; assumption).
  repeat split.
  - exact Hget.
  - apply (http_loop_stops r [] e rest); [constructor | lia].
  - rewrite (http_reconcile_stale r w [] e rest Hq); [|constructor | lia].
    rewrite <- Hq, with_queue_same. reflexivity.
Qed.

(** C9 (as amended): on a queue of natural-number ids, for every received
    result, the two clients remove the same envelopes and publish the same
    pair or nothing: they leave the client in the same state.  They are not
    identical in how the step ends.  For a result without ['image_id'] the
    HTTP client reads the id as -1, drops the result and returns, where the
    gRPC client raises [KeyError] on a non-empty queue, both leaving the
    client as it was; in every other case the gRPC step returns normally,
    and so does the HTTP step whenever the pop loop stops at a queued
    envelope or the queue is empty. *)
Theorem C9_reconcile_same_removal_and_publication w r :
  Forall (fun x => 0 <= fst x) (frame_queue (self w)) ->
  snd (YoloClient.reconcile r w) = snd (YoloGRPCClient.reconcile r w) /\
  fst (YoloGRPCClient.reconcile r w) =
    match image_id r, frame_queue (self w) with
    | None, _ :: _ => Exc KeyError
    | _, _ => Val tt
    end /\
  (image_id r = None ->
   YoloClient.reconcile r w = (Val tt, w) /\
   snd (YoloGRPCClient.reconcile r w) = w) /\
  (frame_queue (self w) = [] \/
   Exists (fun x => get_image_id r (-1) <= fst x) (frame_queue (self w)) ->
   fst (YoloClient.reconcile r w) = Val tt).
Proof.
  intros Hnat.
  destruct (frame_queue (self w)) as [|x q] eqn:Hq.
  { rewrite (http_reconcile_empty r w Hq), (grpc_reconcile_empty r w Hq).
    destruct (image_id r); repeat split. }
  destruct (split_older (get_image_id r (-1)) (x :: q))
    as (older & rest & Hsplit & Hold & Hrest).
  destruct (image_id r) as [id|] eqn:Hid.
  - assert (Hget : get_image_id r (-1) = id)
      by (unfold get_image_id; rewrite Hid; reflexivity).
    rewrite Hget in *.
    destruct rest as [|e rest].
    + rewrite app_nil_r in Hsplit. subst older.
      rewrite (grpc_reconcile_drained r id w Hid);
        [| rewrite Hq; discriminate | rewrite Hq; exact Hold].
      rewrite (http_reconcile_drained r w);
        [| rewrite Hq; discriminate | rewrite Hq, Hget; exact Hold].
      split; [reflexivity|]. split; [reflexivity|].
      split; [intros Hnone; discriminate Hnone|].
      intros [Hnil | Hex]; [discriminate|]. exfalso.
      apply Exists_exists in Hex. destruct Hex as (y & Hy & Hle).
      rewrite Forall_forall in Hold. specialize (Hold y Hy). lia.
    + rewrite Hsplit in Hq.
      destruct (Z.eq_dec (fst e) id) as [Heq | Hneq].
      * rewrite (grpc_reconcile_match r id w older e rest Hid Hq Hold Heq).
        rewrite (http_reconcile_match r w older e rest Hq);
          [| rewrite Hget; exact Hold | rewrite Hget; exact Heq].
        split; [reflexivity|]. split; [reflexivity|].
        split; [intros Hnone; discriminate Hnone | reflexivity].
      * rewrite (grpc_reconcile_stale r id w older e rest Hid Hq Hold)
          by lia.
        rewrite (http_reconcile_stale r w older e rest Hq);
          [| rewrite Hget; exact Hold | rewrite Hget; lia].
        split; [reflexivity|]. split; [reflexivity|].
        split; [intros Hnone; discriminate Hnone | reflexivity].
  - assert (Hget : get_image_id r (-1) = -1)
      by (unfold get_image_id; rewrite Hid; reflexivity).
    rewrite Hget in *.
    assert (older = []) as ->.
    { destruct older as [|y older]; [reflexivity|]. exfalso.
      rewrite Hsplit in Hnat. inversion Hnat; subst.
      inversion Hold; subst. lia. }
    simpl in Hsplit. subst rest.
    rewrite (grpc_reconcile_no_key r w) by (rewrite ?Hq; congruence).
    rewrite (http_reconcile_stale r w [] x q Hq);
      [| constructor
       | rewrite Hget; inversion Hnat; subst; simpl in *; lia].
    rewrite <- Hq, with_queue_same. repeat split.
Qed.

End ReconcileClaims.

(** ** Calls and answers in any order *)

Section Traces.
Context {Image Boxes : Type}.
#[local] Abbreviation frame_t := (Frame Image).
#[local] Abbreviation results_t := (JsonResults Boxes).
#[local] Abbreviation AW := (World Image Boxes (Z * frame_t)).
Implicit Types (w : AW) (r : results_t) (q : list (Z * frame_t))
  (frames : list frame_t).

(** Both loops only ever take envelopes from the front. *)
Lemma http_loop_takes_front r q :
  exists gone, q = gone ++ snd (YoloClient.discard_old_images r q).
Proof.
  induction q as [|x q [gone IH]]; simpl.
  - exists []. reflexivity.
  - destruct (fst x <? get_image_id r (-1)).
    + exists (x :: gone). simpl. congruence.
    + exists []. reflexivity.
Qed.

Lemma grpc_loop_takes_front r q :
  exists gone, q = gone ++ snd (YoloGRPCClient.discard_old_images r q).
Proof.
  induction q as [|x q [gone IH]]; simpl.
  - exists []. reflexivity.
  - destruct (getitem_image_id r) as [id|]; [|exists []; reflexivity].
    destruct (fst x <? id).
    + exists (x :: gone). simpl. congruence.
    + exists []. reflexivity.
Qed.

Lemma http_reconcile_takes_front r w :
  frame_id (self (snd (YoloClient.reconcile r w))) = frame_id (self w) /\
  exists gone,
    frame_queue (self w)
    = gone ++ frame_queue (self (snd (YoloClient.reconcile r w))).
Proof.
  rewrite http_reconcile_unfold.
  destruct (http_loop_takes_front r (frame_queue (self w))) as [gone Hgone].
  destruct (frame_queue (self w)) as [|x q] eqn:Hq.
  { split; [reflexivity | exists []; symmetry; exact Hq]. }
  destruct (YoloClient.discard_old_images r (x :: q))
    as [[[]|ex|] [|e rest]]; simpl in Hgone |- *;
    try (split; [reflexivity | exists gone; exact Hgone]).
  destruct (fst e >? get_image_id r (-1)); simpl;
    [split; [reflexivity | exists gone; exact Hgone]|].
  destruct (shared_frame (self w)); simpl;
    [| split; [reflexivity | exists gone; exact Hgone]].
  split; [reflexivity|]. exists (gone ++ [e]).
  rewrite <- app_assoc. exact Hgone.
Qed.

Lemma grpc_reconcile_takes_front r w :
  frame_id (self (snd (YoloGRPCClient.reconcile r w))) = frame_id (self w) /\
  exists gone,
    frame_queue (self w)
    = gone ++ frame_queue (self (snd (YoloGRPCClient.reconcile r w))).
Proof.
  rewrite grpc_reconcile_unfold.
  destruct (grpc_loop_takes_front r (frame_queue (self w))) as [gone Hgone].
  destruct (frame_queue (self w)) as [|x q] eqn:Hq.
  { split; [reflexivity | exists []; symmetry; exact Hq]. }
  destruct (YoloGRPCClient.discard_old_images r (x :: q))
    as [[[]|ex|] [|e rest]]; simpl in Hgone |- *;
    try (split; [reflexivity | exists gone; exact Hgone]).
  destruct (image_id r) as [id|]; simpl;
    [| split; [reflexivity | exists gone; exact Hgone]].
  destruct (fst e >? id); simpl;
    [split; [reflexivity | exists gone; exact Hgone]|].
  destruct (shared_frame (self w)); simpl;
    [| split; [reflexivity | exists gone; exact Hgone]].
  split; [reflexivity|]. exists (gone ++ [e]).
  rewrite <- app_assoc. exact Hgone.
Qed.

Lemma http_step_effect ev w : step_effect ev w (YoloClient.step ev w).
Proof.
  destruct ev as [frame | x]; unfold step_effect, YoloClient.step.
  - unfold YoloClient.detect_until_await, YoloClient.dispatch.
    destruct (image frame); run_py; simpl; repeat split.
  - unfold YoloClient.detect_after_await,
      YoloClient.get_aiohttp_session_response.
    destruct x as [timeout | timeout | [|r]]; run_py; simpl;
      try (repeat split; exists []; reflexivity).
    destruct (http_reconcile_takes_front r w) as (Hid & gone & Hgone).
    destruct (YoloClient.reconcile r w) as [[[]|ex|] w']; simpl in *;
      (repeat split; [exact Hid | exists gone; exact Hgone]).
Qed.

Lemma grpc_step_effect ev w : step_effect ev w (YoloGRPCClient.step ev w).
Proof.
  destruct ev as [frame | x]; unfold step_effect, YoloGRPCClient.step.
  - unfold YoloGRPCClient.detect_until_await, YoloGRPCClient.dispatch.
    destruct (image frame); run_py; simpl; repeat split.
  - unfold YoloGRPCClient.detect_after_await, YoloGRPCClient.stub_call.
    destruct x as [|[|r]]; run_py; simpl;
      try (repeat split; exists []; reflexivity).
    destruct (grpc_reconcile_takes_front r w) as (Hid & gone & Hgone).
    destruct (YoloGRPCClient.reconcile r w) as [[[]|ex|] w']; simpl in *;
      (repeat split; [exact Hid | exists gone; exact Hgone]).
Qed.

(** Numbering. *)
Lemma number_app start frames frames' :
  number start (frames ++ frames')
  = number start frames ++ number (start + length frames) frames'.
Proof.
  revert start. induction frames as [|f frames IH]; intros start; simpl.
  - rewrite Nat.add_0_r. reflexivity.
  - rewrite IH.
    replace (S start + length frames)%nat
      with (start + S (length frames))%nat by lia.
    reflexivity.
Qed.

Lemma number_ids start frames :
  map fst (number start frames)
  = map Z.of_nat (seq start (length frames)).
Proof.
  revert start. induction frames as [|f frames IH]; intros start; simpl.
  - reflexivity.
  - rewrite IH. reflexivity.
Qed.

Lemma seq_ascending start len :
  StronglySorted Z.lt (map Z.of_nat (seq start len)).
Proof.
  revert start. induction len as [|len IH]; intros start; simpl.
  - constructor.
  - constructor; [apply IH|].
    apply Forall_forall. intros z Hz.
    apply in_map_iff in Hz. destruct Hz as (n & <- & Hn).
    apply in_seq in Hn. lia.
Qed.

Lemma ascending_tail (l1 l2 : list Z) :
  StronglySorted Z.lt (l1 ++ l2) -> StronglySorted Z.lt l2.
Proof.
  induction l1 as [|a l1 IH]; simpl; intros H; [exact H|].
  apply IH. inversion H; assumption.
Qed.

(** A tail of the history is an ascending queue of earlier ids. *)
Lemma tail_of_history_ascending frames w :
  tail_of_history frames w -> ascending w.
Proof.
  intros (Hid & gone & Hgone). unfold ascending, ids.
  assert (Hids : map Z.of_nat (seq 0 (length frames))
                 = map fst gone ++ map fst (frame_queue (self w))).
  { rewrite <- map_app, <- Hgone. symmetry. apply number_ids. }
  split; [lia|]. split.
  - apply (ascending_tail (map fst gone)). rewrite <- Hids.
    apply seq_ascending.
  - apply Forall_forall. intros z Hz.
    assert (Hin : In z (map Z.of_nat (seq 0 (length frames))))
      by (rewrite Hids; apply in_or_app; right; exact Hz).
    apply in_map_iff in Hin. destruct Hin as (n & <- & Hn).
    apply in_seq in Hn. lia.
Qed.

(** One event keeps the queue a tail of the history. *)
Lemma step_keeps_history {X} (ev : event Image X) frames w out :
  step_effect ev w out ->
  tail_of_history frames w ->
  assigned [fst out]
  = map Z.of_nat (seq (length frames) (length (dispatched [ev]))) /\
  tail_of_history (frames ++ dispatched [ev]) (snd out).
Proof.
  intros Hstep (Hid & gone & Hgone). unfold tail_of_history.
  destruct ev as [frame | x]; simpl in *.
  - destruct (image frame) eqn:Himg.
    + destruct Hstep as (Hout & Hq & Hn & _). rewrite Hout. simpl.
      split; [rewrite Hid; reflexivity|]. split.
      * rewrite Hn, Hid, length_app. simpl. lia.
      * exists gone. unfold history in *. rewrite number_app, Hq, Hgone.
        simpl. rewrite Hid, app_assoc. reflexivity.
    + destruct Hstep as (Hout & Hself). rewrite Hout, app_nil_r, Hself.
      split; [reflexivity|]. split; [exact Hid | exists gone; exact Hgone].
  - destruct Hstep as (Hout & Hn & gone' & Hq). rewrite app_nil_r.
    split; [exact Hout|]. split; [congruence|].
    exists (gone ++ gone'). rewrite <- app_assoc, <- Hq. exact Hgone.
Qed.

Lemma assigned_cons (o : res (option Z)) os :
  assigned (o :: os) = assigned [o] ++ assigned os.
Proof. destruct o as [[id|]|e|]; reflexivity. Qed.

Lemma dispatched_cons {X} (ev : event Image X) evs :
  dispatched (ev :: evs) = dispatched [ev] ++ dispatched evs.
Proof.
  destruct ev as [frame | x]; simpl; [|reflexivity].
  destruct (image frame); reflexivity.
Qed.

(** Any run keeps it so, and hands out the next ids in order. *)
Lemma run_keeps_history {X} (step : event Image X -> M Image Boxes _ _)
    (Hstep : forall ev w, step_effect ev w (step ev w)) evs :
  forall frames w,
    tail_of_history frames w ->
    assigned (fst (run_events step evs w))
    = map Z.of_nat (seq (length frames) (length (dispatched evs))) /\
    tail_of_history (frames ++ dispatched evs) (snd (run_events step evs w)).
Proof.
  induction evs as [|ev evs IH]; intros frames w Hw.
  - simpl. rewrite app_nil_r. split; [reflexivity | exact Hw].
  - rewrite dispatched_cons.
    change (run_events step (ev :: evs) w)
      with (let (o, w') := step ev w in
            let (os, w'') := run_events step evs w' in (o :: os, w'')).
    destruct (step_keeps_history ev frames w (step ev w) (Hstep ev w) Hw)
      as (Hids & Hw').
    destruct (step ev w) as [o w']. cbn [fst snd] in Hids, Hw'.
    destruct (IH _ _ Hw') as (Hids' & Hw'').
    destruct (run_events step evs w') as [os w'']. cbn [fst snd] in *.
    rewrite assigned_cons, Hids, Hids'.
    rewrite !length_app, seq_app, map_app.
    split; [reflexivity|].
    rewrite <- app_assoc in Hw''. exact Hw''.
Qed.

Lemma boot_tail_of_history sf : tail_of_history [] (boot sf : AW).
Proof. split; [reflexivity | exists []; reflexivity]. Qed.

(** Calls alone, with no answer in between, fill the queue in order. *)
Lemma http_calls_only (images : list Image) :
  forall (n : nat) q (sf : option (SharedFrame Image Boxes)) out,
    YoloClient.run (map (fun i => Call (mkFrame (Some i))) images)
      (mkWorld (mkClient q sf (Z.of_nat n)) out)
    = (map (fun id => Val (Some id))
         (map Z.of_nat (seq n (length images))),
       mkWorld
         (mkClient (q ++ number n (map (fun i => mkFrame (Some i)) images))
            sf (Z.of_nat (n + length images)))
         out).
Proof.
  induction images as [|i images IH]; intros n q sf out.
  - simpl. rewrite app_nil_r, Nat.add_0_r. reflexivity.
  - unfold YoloClient.run in *. cbn [map run_events].
    unfold YoloClient.step at 1.
    unfold YoloClient.detect_until_await, YoloClient.dispatch.
    run_py. cbn [image].
    replace (Z.of_nat n + 1) with (Z.of_nat (S n)) by lia.
    rewrite IH. cbn [length seq map number].
    rewrite <- app_assoc.
    replace (S n + length images)%nat with (n + S (length images))%nat
      by lia.
    reflexivity.
Qed.

Lemma grpc_calls_only (images : list Image) :
  forall (n : nat) q (sf : option (SharedFrame Image Boxes)) out,
    YoloGRPCClient.run (map (fun i => Call (mkFrame (Some i))) images)
      (mkWorld (mkClient q sf (Z.of_nat n)) out)
    = (map (fun id => Val (Some id))
         (map Z.of_nat (seq n (length images))),
       mkWorld
         (mkClient (q ++ number n (map (fun i => mkFrame (Some i)) images))
            sf (Z.of_nat (n + length images)))
         out).
Proof.
  induction images as [|i images IH]; intros n q sf out.
  - simpl. rewrite app_nil_r, Nat.add_0_r. reflexivity.
  - unfold YoloGRPCClient.run in *. cbn [map run_events].
    unfold YoloGRPCClient.step at 1.
    unfold YoloGRPCClient.detect_until_await, YoloGRPCClient.dispatch.
    run_py. cbn [image].
    replace (Z.of_nat n + 1) with (Z.of_nat (S n)) by lia.
    rewrite IH. cbn [length seq map number].
    rewrite <- app_assoc.
    replace (S n + length images)%nat with (n + S (length images))%nat
      by lia.
    reflexivity.
Qed.

(** C3: on a fresh client, whatever the order of calls and answers, the
    dispatched frames get the ids 0, 1, ..., N-1 in dispatch order, the
    counter stands at N, and the queue is the list of all envelopes in
    dispatch order less some taken from its front, hence strictly ascending
    in id; with no answer in between it is that whole list.  HTTP and gRPC
    alike. *)
Theorem C3_ids_count_up_in_dispatch_order
    (sf : option (SharedFrame Image Boxes))
    (evs : list (event Image (YoloClient.exchange Boxes)))
    (gevs : list (event Image (YoloGRPCClient.rpc Boxes)))
    (images : list Image) :
  let after := YoloClient.run evs (boot sf) in
  let gafter := YoloGRPCClient.run gevs (boot sf) in
  let frames := map (fun i => mkFrame (Some i)) images in
  (assigned (fst after) = upto (length (dispatched evs)) /\
   frame_id (self (snd after)) = Z.of_nat (length (dispatched evs)) /\
   (exists gone,
      history (dispatched evs) = gone ++ frame_queue (self (snd after))) /\
   StronglySorted Z.lt (ids (snd after))) /\
  (assigned (fst gafter) = upto (length (dispatched gevs)) /\
   frame_id (self (snd gafter)) = Z.of_nat (length (dispatched gevs)) /\
   (exists gone,
      history (dispatched gevs) = gone ++ frame_queue (self (snd gafter))) /\
   StronglySorted Z.lt (ids (snd gafter))) /\
  YoloClient.run (map (fun i => Call (mkFrame (Some i))) images) (boot sf)
  = (map (fun id => Val (Some id)) (upto (length frames)),
     mkWorld (mkClient (history frames) sf (Z.of_nat (length frames))) []) /\
  YoloGRPCClient.run (map (fun i => Call (mkFrame (Some i))) images)
    (boot sf)
  = (map (fun id => Val (Some id)) (upto (length frames)),
     mkWorld (mkClient (history frames) sf (Z.of_nat (length frames))) []).
Proof.
  intros after gafter frames.
  assert (Hrun : forall X (step : event Image X -> M Image Boxes _ _),
             (forall ev w, step_effect ev w (step ev w)) ->
             forall es,
               let a := run_events step es (boot sf) in
               assigned (fst a) = upto (length (dispatched es)) /\
               frame_id (self (snd a)) = Z.of_nat (length (dispatched es)) /\
               (exists gone,
                  history (dispatched es)
                  = gone ++ frame_queue (self (snd a))) /\
               StronglySorted Z.lt (ids (snd a))).
  { intros X step Hstep es a.
    destruct (run_keeps_history step Hstep es [] (boot sf)
                (boot_tail_of_history sf)) as (Hids & Htail).
    simpl in Hids, Htail. fold a in Hids, Htail.
    split; [exact Hids|].
    split; [exact (proj1 Htail)|].
    split; [exact (proj2 Htail)|].
    exact (proj1 (proj2 (tail_of_history_ascending _ _ Htail))). }
  split; [exact (Hrun _ YoloClient.step http_step_effect evs)|].
  split; [exact (Hrun _ YoloGRPCClient.step grpc_step_effect gevs)|].
  unfold frames. rewrite length_map. split.
  - exact (http_calls_only images 0 [] sf []).
  - exact (grpc_calls_only images 0 [] sf []).
Qed.

End Traces.

(** ** An envelope whose answer never comes *)

Section Lost.
Context {Image Boxes : Type}.
#[local] Abbreviation frame_t := (Frame Image).
#[local] Abbreviation results_t := (JsonResults Boxes).
#[local] Abbreviation AW := (World Image Boxes (Z * frame_t)).
#[local] Abbreviation hevent := (event Image (YoloClient.exchange Boxes)).
Implicit Types (w : AW) (r : results_t) (q older rest : list (Z * frame_t))
  (e : Z * frame_t) (k : Z) (ev : hevent) (evs : list hevent).

Lemma ascending_append (l : list Z) (n : Z) :
  StronglySorted Z.lt l -> Forall (fun z => z < n) l ->
  StronglySorted Z.lt (l ++ [n]).
Proof.
  induction 1 as [|a l Hs IH Ha]; intros Hall; simpl.
  - repeat constructor.
  - inversion Hall; subst. constructor; [apply IH; assumption|].
    apply Forall_app. split; [exact Ha | repeat constructor; assumption].
Qed.

(** One event keeps the queue ascending and never moves the counter back. *)
Lemma step_effect_ascending {X} (ev' : event Image X) w out :
  step_effect ev' w out -> ascending w ->
  ascending (snd out) /\ frame_id (self w) <= frame_id (self (snd out)).
Proof.
  intros Hstep (Hn & Hsorted & Hbound). unfold ascending, ids in *.
  destruct ev' as [frame | x]; simpl in Hstep.
  - destruct (image frame).
    + destruct Hstep as (_ & Hq & Hid & _). rewrite Hq, Hid, map_app. simpl.
      split; [|lia]. split; [lia|]. split.
      * apply ascending_append; [exact Hsorted|].
        eapply Forall_impl; [|exact Hbound]. simpl. intros; lia.
      * apply Forall_app. split.
        -- eapply Forall_impl; [|exact Hbound]. simpl. intros; lia.
        -- repeat constructor; lia.
    + destruct Hstep as (_ & Hself). rewrite Hself.
      split; [|lia]. repeat split; assumption.
  - destruct Hstep as (_ & Hid & gone & Hq). rewrite Hid.
    rewrite Hq, map_app in Hsorted, Hbound.
    split; [|lia]. split; [lia|]. split.
    + exact (ascending_tail _ _ Hsorted).
    + apply Forall_app in Hbound. exact (proj2 Hbound).
Qed.

(** In an ascending queue everything behind an envelope has a higher id. *)
Lemma ascending_behind older e rest :
  StronglySorted Z.lt (map fst (older ++ e :: rest)) ->
  Forall (fun z => fst e < z) (map fst rest).
Proof.
  rewrite map_app. intros H. apply ascending_tail in H. simpl in H.
  inversion H; assumption.
Qed.

(** The pop loop removes every envelope older than the result. *)
Lemma http_loop_removes_older r w k :
  ascending w -> k < get_image_id r (-1) ->
  ~ In k (map fst
            (snd (YoloClient.discard_old_images r (frame_queue (self w))))).
Proof.
  intros (_ & Hsorted & _) Hk. unfold ids in Hsorted.
  destruct (split_older (get_image_id r (-1)) (frame_queue (self w)))
    as (older & rest & Hsplit & Hold & Hrest).
  rewrite Hsplit in *. destruct rest as [|e rest].
  - rewrite app_nil_r. rewrite (http_loop_drains r older Hold). simpl. tauto.
  - rewrite (http_loop_stops r older e rest Hold Hrest). simpl.
    pose proof (ascending_behind older e rest Hsorted) as Hbehind.
    rewrite Forall_forall in Hbehind.
    intros [Hin | Hin]; [lia|]. specialize (Hbehind k Hin). lia.
Qed.

(** One reconciliation keeps envelope [k] unless the result is higher,
    provided the result is not the one for [k]. *)
Lemma http_reconcile_keeps r w k :
  ascending w -> 0 <= k -> image_id r <> Some k ->
  In k (ids (snd (YoloClient.reconcile r w))) <->
  In k (ids w) /\ ~ k < get_image_id r (-1).
Proof.
  intros (_ & Hsorted & _) Hk Hnot. unfold ids in *.
  assert (Hneq : get_image_id r (-1) <> k).
  { unfold get_image_id. destruct (image_id r); [congruence | lia]. }
  destruct (split_older (get_image_id r (-1)) (frame_queue (self w)))
    as (older & rest & Hsplit & Hold & Hrest).
  assert (Holder : forall z, In z (map fst older) -> z < get_image_id r (-1)).
  { intros z Hz. apply in_map_iff in Hz. destruct Hz as (y & <- & Hy).
    rewrite Forall_forall in Hold. exact (Hold y Hy). }
  destruct rest as [|e rest].
  - rewrite app_nil_r in Hsplit. subst older.
    destruct (frame_queue (self w)) as [|x q] eqn:Hq.
    + rewrite (http_reconcile_empty r w Hq). simpl. rewrite Hq. simpl. tauto.
    + rewrite (http_reconcile_drained r w);
        [| rewrite Hq; discriminate | rewrite Hq; exact Hold].
      simpl. split; [tauto|]. intros [Hin Hge]. apply Hge, Holder, Hin.
  - rewrite Hsplit in Hsorted.
    pose proof (ascending_behind older e rest Hsorted) as Hbehind.
    rewrite Forall_forall in Hbehind.
    assert (Hfull : forall q',
               (q' = e :: rest \/ (q' = rest /\ fst e = get_image_id r (-1)))
               -> In k (map fst q') <->
                  In k (map fst (older ++ e :: rest)) /\
                  ~ k < get_image_id r (-1)).
    { intros q' Hq'. rewrite map_app, in_app_iff. simpl.
      destruct Hq' as [-> | [-> Heq]]; simpl; split.
      - intros [Hin | Hin]; [split; [tauto | lia]|].
        specialize (Hbehind k Hin). split; [tauto | lia].
      - intros [[Hin | Hin] Hge]; [exfalso; apply Hge, Holder, Hin | exact Hin].
      - intros Hin. specialize (Hbehind k Hin). split; [tauto | lia].
      - intros [[Hin | [Hin | Hin]] Hge];
          [exfalso; apply Hge, Holder, Hin | lia | exact Hin]. }
    rewrite Hsplit.
    destruct (Z.eq_dec (fst e) (get_image_id r (-1))) as [Heq | Hne].
    + rewrite (http_reconcile_match r w older e rest Hsplit Hold Heq).
      destruct (shared_frame (self w));
        unfold published, with_queue; cbn [snd self frame_queue];
        apply Hfull; auto.
    + rewrite (http_reconcile_stale r w older e rest Hsplit Hold) by lia.
      unfold with_queue. cbn [snd self frame_queue]. apply Hfull; auto.
Qed.

Lemma higher_result_spec r k :
  0 <= k ->
  higher_result k (Resume (YoloClient.Answers (Json r)) : hevent)
  = (k <? get_image_id r (-1)).
Proof.
  intros Hk. unfold higher_result, get_image_id.
  destruct (image_id r); [reflexivity|].
  symmetry. apply Z.ltb_ge. lia.
Qed.

(** One event keeps envelope [k] unless it is a higher result. *)
Lemma http_step_keeps ev w k :
  ascending w -> 0 <= k < frame_id (self w) -> ~ result_for k ev ->
  In k (ids (snd (YoloClient.step ev w))) <->
  In k (ids w) /\ higher_result k ev = false.
Proof.
  intros Hasc Hk Hnot. destruct w as [[q sf n] out].
  destruct ev as [frame | [timeout | timeout | [|r]]];
    unfold YoloClient.step, YoloClient.detect_until_await,
      YoloClient.dispatch, YoloClient.detect_after_await,
      YoloClient.get_aiohttp_session_response.
  - destruct (image frame); run_py; unfold ids; simpl in *; [|tauto].
    rewrite map_app, in_app_iff. simpl. split; [|tauto].
    intros [Hin | [Heq | []]]; [tauto | lia].
  - run_py. unfold ids. simpl. tauto.
  - run_py. unfold ids. simpl. tauto.
  - run_py. unfold ids. simpl. tauto.
  - rewrite higher_result_spec by lia.
    assert (Hrec := http_reconcile_keeps r _ k Hasc (proj1 Hk) Hnot).
    unfold bind, ret.
    destruct (YoloClient.reconcile r _) as [[[]|ex|] w']; simpl in *;
      rewrite Hrec, Z.ltb_ge; intuition lia.
Qed.

(** Over a run: the envelope stays exactly as long as no higher result has
    arrived. *)
Lemma http_run_keeps evs :
  forall w k,
    ascending w -> 0 <= k < frame_id (self w) ->
    (forall ev, In ev evs -> ~ result_for k ev) ->
    In k (ids (snd (YoloClient.run evs w))) <->
    In k (ids w) /\ existsb (higher_result k) evs = false.
Proof.
  unfold YoloClient.run.
  induction evs as [|ev evs IH]; intros w k Hasc Hk Hnot.
  - simpl. tauto.
  - change (run_events YoloClient.step (ev :: evs) w)
      with (let (o, w') := YoloClient.step ev w in
            let (os, w'') := run_events YoloClient.step evs w' in
            (o :: os, w'')).
    pose proof (http_step_keeps ev w k Hasc Hk (Hnot ev (or_introl eq_refl)))
      as Hstep.
    destruct (step_effect_ascending ev w _ (http_step_effect ev w) Hasc)
      as (Hasc' & Hmono).
    destruct (YoloClient.step ev w) as [o w']. cbn [fst snd] in *.
    assert (Hk' : 0 <= k < frame_id (self w')) by lia.
    specialize (IH w' k Hasc' Hk' (fun ev' H => Hnot ev' (or_intror H))).
    destruct (run_events YoloClient.step evs w') as [os w''].
    cbn [fst snd existsb] in *.
    rewrite IH, Hstep, orb_false_iff. tauto.
Qed.

(** C7: a transport failure removes nothing.  The call raises, the client is
    as its own enqueue left it, and the envelope of the failed call stays in
    the queue through whatever calls and answers follow -- none of them
    being an answer for that id -- exactly until a result with a strictly
    higher id arrives, whose pop loop then removes it. *)
Theorem C7_failed_send_keeps_envelope_until_higher_result w frame x evs :
  image frame <> None ->
  transport_failure x ->
  ascending w ->
  (forall ev, In ev evs -> ~ result_for (frame_id (self w)) ev) ->
  let k := frame_id (self w) in
  let pending := snd (YoloClient.detect_until_await frame w) in
  let failed := snd (YoloClient.detect_remote frame x w) in
  frame_queue (self pending) = frame_queue (self w) ++ [(k, frame)] /\
  self (snd (YoloClient.detect_after_await x pending)) = self pending /\
  self failed = self pending /\
  (In k (ids (snd (YoloClient.run evs failed))) <->
   existsb (higher_result k) evs = false) /\
  (forall w' r,
     ascending w' -> k < get_image_id r (-1) ->
     ~ In k (map fst (snd (YoloClient.discard_old_images r
                             (frame_queue (self w')))))).
Proof.
  intros Himg Hfail Hasc Hnot k pending failed.
  destruct w as [[q sf n] out]. cbn [self frame_id frame_queue] in *.
  subst k.
  assert (Hpending : self pending
                     = mkClient (q ++ [(n, frame)]) sf (n + 1)).
  { unfold pending, YoloClient.detect_until_await, YoloClient.dispatch.
    destruct (image frame); [|congruence]. reflexivity. }
  assert (Hfailed : self failed = self pending).
  { unfold failed, pending, YoloClient.detect_remote,
      YoloClient.detect_until_await, YoloClient.dispatch,
      YoloClient.detect_after_await,
      YoloClient.get_aiohttp_session_response.
    destruct (image frame); [|congruence].
    destruct x as [timeout | timeout | t]; [reflexivity | reflexivity |].
    destruct Hfail. }
  split; [rewrite Hpending; reflexivity|].
  split.
  { unfold YoloClient.detect_after_await,
      YoloClient.get_aiohttp_session_response.
    destruct x as [timeout | timeout | t]; [reflexivity | reflexivity |].
    destruct Hfail. }
  split; [exact Hfailed|].
  split; [| intros w' r; apply http_loop_removes_older].
  assert (Hasc' : ascending failed /\ 0 <= n < frame_id (self failed)
                  /\ In n (ids failed)).
  { destruct Hasc as (Hn & Hsorted & Hbound).
    unfold ascending, ids in *. rewrite Hfailed, Hpending.
    cbn [self frame_id frame_queue] in *.
    rewrite map_app. simpl.
    repeat split; try lia.
    - apply ascending_append; [exact Hsorted|].
      eapply Forall_impl; [|exact Hbound]. simpl. intros; lia.
    - apply Forall_app. split.
      + eapply Forall_impl; [|exact Hbound]. simpl. intros; lia.
      + repeat constructor; lia.
    - apply in_or_app. right. left. reflexivity. }
  destruct Hasc' as (Hasc' & Hk & Hin).
  rewrite (http_run_keeps evs failed n Hasc' Hk Hnot). tauto.
Qed.

End Lost.

(** ** Errors of one call *)

Section Errors.
Context {Image Boxes : Type}.
#[local] Abbreviation frame_t := (Frame Image).
#[local] Abbreviation results_t := (JsonResults Boxes).
#[local] Abbreviation AW := (World Image Boxes (Z * frame_t)).
#[local] Abbreviation LW := (World Image Boxes frame_t).
#[local] Abbreviation hevent := (event Image (YoloClient.exchange Boxes)).
Implicit Types (w : AW) (r : results_t) (ev : hevent) (evs : list hevent).





End Errors.

(** ** The local path *)

Section Local.
Context {Image Boxes : Type}.
#[local] Abbreviation frame_t := (Frame Image).
#[local] Abbreviation results_t := (JsonResults Boxes).
#[local] Abbreviation LW := (World Image Boxes frame_t).
#[local] Abbreviation AW := (World Image Boxes (Z * frame_t)).
Implicit Types (r : results_t) (q : list frame_t) (i : Image)
  (ok : list (Image * results_t)) (calls : SharedFrame Image Boxes).

(** A call that goes through puts its frame at the back of the queue; with a
    shared frame it then takes the front of the queue and publishes that. *)
Lemma http_local_goes_through i r q sf n out :
  let frame := mkFrame (Some i) in
  YoloClient.detect_local frame (YoloClient.PostReturns (Json r))
    (mkWorld (mkClient q sf n) out)
  = (Val tt,
     mkWorld
       match sf with
       | Some calls =>
           mkClient (tl (q ++ [frame]))
             (Some ((hd frame (q ++ [frame]), r) :: calls)) (n + 1)
       | None => mkClient (q ++ [frame]) None (n + 1)
       end
       ((out ++ [SendingRequest]) ++ [ResponseText])).
Proof.
  unfold YoloClient.detect_local, YoloClient.requests_post. run_py.
  cbn [image]. destruct sf; [|reflexivity]. destruct q; reflexivity.
Qed.

Lemma grpc_local_goes_through i r q sf n out :
  let frame := mkFrame (Some i) in
  YoloGRPCClient.detect_local frame (YoloGRPCClient.RpcReturns (Json r))
    (mkWorld (mkClient q sf n) out)
  = (Val tt,
     mkWorld
       match sf with
       | Some calls =>
           mkClient (tl (q ++ [frame]))
             (Some ((hd frame (q ++ [frame]), r) :: calls)) n
       | None => mkClient (q ++ [frame]) None n
       end
       out).
Proof.
  unfold YoloGRPCClient.detect_local, YoloGRPCClient.stub_call. run_py.
  cbn [image]. destruct sf; [|reflexivity]. destruct q; reflexivity.
Qed.

(** Calls that go through, one after the other, with a shared frame. *)
Lemma http_local_run_attached ok :
  forall calls n out,
    self (repeat_local YoloClient.detect_local (http_calls ok)
            (mkWorld (mkClient [] (Some calls) n) out))
    = mkClient [] (Some (own_pairs ok ++ calls)) (n + Z.of_nat (length ok)).
Proof.
  induction ok as [|[i r] ok IH]; intros calls n out.
  - simpl. rewrite Z.add_0_r. reflexivity.
  - cbn [http_calls map repeat_local fst snd].
    rewrite http_local_goes_through. cbn [snd app tl hd].
    fold (http_calls ok). rewrite IH.
    unfold own_pairs. cbn [map rev length fst snd].
    rewrite <- app_assoc. cbn [app]. f_equal. lia.
Qed.

Lemma grpc_local_run_attached ok :
  forall calls n out,
    self (repeat_local YoloGRPCClient.detect_local (grpc_calls ok)
            (mkWorld (mkClient [] (Some calls) n) out))
    = mkClient [] (Some (own_pairs ok ++ calls)) n.
Proof.
  induction ok as [|[i r] ok IH]; intros calls n out.
  - reflexivity.
  - cbn [grpc_calls map repeat_local fst snd].
    rewrite grpc_local_goes_through. cbn [snd app tl hd].
    fold (grpc_calls ok). rewrite IH.
    unfold own_pairs. cbn [map rev length fst snd].
    rewrite <- app_assoc. reflexivity.
Qed.

(** The same without a shared frame: nothing takes the frames out again. *)
Lemma http_local_run_detached ok :
  forall q n out,
    self (repeat_local YoloClient.detect_local (http_calls ok)
            (mkWorld (mkClient q None n) out))
    = mkClient (q ++ map (fun c => mkFrame (Some (fst c))) ok) None
        (n + Z.of_nat (length ok)).
Proof.
  induction ok as [|[i r] ok IH]; intros q n out.
  - simpl. rewrite app_nil_r, Z.add_0_r. reflexivity.
  - cbn [http_calls map repeat_local fst snd].
    rewrite http_local_goes_through. cbn [snd].
    fold (http_calls ok). rewrite IH.
    rewrite <- app_assoc. cbn [map app length fst]. f_equal. lia.
Qed.

Lemma grpc_local_run_detached ok :
  forall q n out,
    self (repeat_local YoloGRPCClient.detect_local (grpc_calls ok)
            (mkWorld (mkClient q None n) out))
    = mkClient (q ++ map (fun c => mkFrame (Some (fst c))) ok) None n.
Proof.
  induction ok as [|[i r] ok IH]; intros q n out.
  - simpl. rewrite app_nil_r. reflexivity.
  - cbn [grpc_calls map repeat_local fst snd].
    rewrite grpc_local_goes_through. cbn [snd].
    fold (grpc_calls ok). rewrite IH.
    rewrite <- app_assoc. reflexivity.
Qed.

(** C2 (as amended): the local path does use the queue.  Each call that goes
    through enqueues its frame and, with a shared frame attached, dequeues
    it again to publish it with its own answer: after N such calls on an
    empty queue the queue is empty again.  Without a shared frame the N
    frames stay queued.  The gRPC client leaves [frame_id] as it was; the
    HTTP client has advanced it by N. *)
Theorem C2_local_path_uses_queue_and_http_counter ok calls n out :
  let N := Z.of_nat (length ok) in
  let attached : LW := mkWorld (mkClient [] (Some calls) n) out in
  let detached : LW := mkWorld (mkClient [] None n) out in
  let frames := map (fun c => mkFrame (Some (fst c))) ok in
  self (repeat_local YoloClient.detect_local (http_calls ok) attached)
  = mkClient [] (Some (own_pairs ok ++ calls)) (n + N) /\
  self (repeat_local YoloGRPCClient.detect_local (grpc_calls ok) attached)
  = mkClient [] (Some (own_pairs ok ++ calls)) n /\
  self (repeat_local YoloClient.detect_local (http_calls ok) detached)
  = mkClient frames None (n + N) /\
  self (repeat_local YoloGRPCClient.detect_local (grpc_calls ok) detached)
  = mkClient frames None n.
Proof.
  intros N attached detached frames. unfold attached, detached.
  rewrite http_local_run_attached, grpc_local_run_attached,
    http_local_run_detached, grpc_local_run_detached.
  repeat split.
Qed.

(** C5: frames 0 and 1 are dispatched with a shared frame attached and the
    result for id 1 arrives first.  The pop loop removes envelope 0, which is
    never published; envelope 1 is matched, popped and published with result
    1.  When the result for id 0 arrives the queue is empty: the call returns
    normally and changes nothing.  HTTP and gRPC alike. *)
Theorem C5_answers_out_of_order (i0 i1 : Image) (b0 b1 : Boxes) calls :
  let f0 := mkFrame (Some i0) in
  let f1 := mkFrame (Some i1) in
  let r0 := mkResults (Some 0) b0 in
  let r1 := mkResults (Some 1) b1 in
  let two : AW := mkWorld (mkClient [(0, f0); (1, f1)] (Some calls) 2) [] in
  let done : AW := mkWorld (mkClient [] (Some ((f1, r1) :: calls)) 2) [] in
  (YoloClient.run [Call f0; Call f1] (boot (Some calls))
   = ([Val (Some 0); Val (Some 1)], two) /\
   YoloClient.discard_old_images r1 (frame_queue (self two))
   = (Val tt, [(1, f1)]) /\
   YoloClient.step (Resume (YoloClient.Answers (Json r1))) two
   = (Val None, done) /\
   YoloClient.step (Resume (YoloClient.Answers (Json r0))) done
   = (Val None, done)) /\
  (YoloGRPCClient.run [Call f0; Call f1] (boot (Some calls))
   = ([Val (Some 0); Val (Some 1)], two) /\
   YoloGRPCClient.discard_old_images r1 (frame_queue (self two))
   = (Val tt, [(1, f1)]) /\
   YoloGRPCClient.step (Resume (YoloGRPCClient.RpcReturns (Json r1))) two
   = (Val None, done) /\
   YoloGRPCClient.step (Resume (YoloGRPCClient.RpcReturns (Json r0))) done
   = (Val None, done)).
Proof. repeat split. Qed.

End Local.

(** ** What gets published on the asynchronous path *)

Section Published.
Context {Image Boxes : Type}.
#[local] Abbreviation frame_t := (Frame Image).
#[local] Abbreviation results_t := (JsonResults Boxes).
#[local] Abbreviation AW := (World Image Boxes (Z * frame_t)).
Implicit Types (w : AW) (r : results_t).

(** A reconciliation publishes nothing, or the frame of a queued envelope
    whose id is the id of the result. *)
Lemma http_publishes_matched_pair r w :
  Forall (fun x => 0 <= fst x) (frame_queue (self w)) ->
  let w' := snd (YoloClient.reconcile r w) in
  shared_frame (self w') = shared_frame (self w) \/
  exists calls id f,
    shared_frame (self w) = Some calls /\
    shared_frame (self w') = Some ((f, r) :: calls) /\
    image_id r = Some id /\
    In (id, f) (frame_queue (self w)).
Proof.
  intros Hnat w'. subst w'.
  destruct (split_older (get_image_id r (-1)) (frame_queue (self w)))
    as (older & rest & Hsplit & Hold & Hrest).
  destruct rest as [|e rest].
  - rewrite app_nil_r in Hsplit. subst older. left.
    destruct (frame_queue (self w)) as [|x q] eqn:Hq.
    + rewrite (http_reconcile_empty r w Hq). reflexivity.
    + rewrite (http_reconcile_drained r w);
        [reflexivity | rewrite Hq; discriminate | rewrite Hq; exact Hold].
  - destruct (Z.eq_dec (fst e) (get_image_id r (-1))) as [Heq | Hne].
    + rewrite (http_reconcile_match r w older e rest Hsplit Hold Heq).
      destruct (shared_frame (self w)) as [calls|] eqn:Hsf;
        [right | left; simpl; congruence].
      assert (He : In e (frame_queue (self w)))
        by (rewrite Hsplit; apply in_or_app; right; left; reflexivity).
      rewrite Forall_forall in Hnat. specialize (Hnat e He).
      unfold get_image_id in Heq.
      destruct (image_id r) as [id|] eqn:Hid; [|lia].
      exists calls, id, (snd e). repeat split.
      rewrite <- Heq, <- surjective_pairing. exact He.
    + left.
      rewrite (http_reconcile_stale r w older e rest Hsplit Hold) by lia.
      reflexivity.
Qed.

Lemma grpc_publishes_matched_pair r w :
  let w' := snd (YoloGRPCClient.reconcile r w) in
  shared_frame (self w') = shared_frame (self w) \/
  exists calls id f,
    shared_frame (self w) = Some calls /\
    shared_frame (self w') = Some ((f, r) :: calls) /\
    image_id r = Some id /\
    In (id, f) (frame_queue (self w)).
Proof.
  intros w'. subst w'.
  destruct (frame_queue (self w)) as [|x q] eqn:Hq.
  { left. rewrite (grpc_reconcile_empty r w Hq). reflexivity. }
  destruct (image_id r) as [id|] eqn:Hid.
  2:{ left. rewrite (grpc_reconcile_no_key r w); [reflexivity | | exact Hid].
      rewrite Hq. discriminate. }
  destruct (split_older id (x :: q))
    as (older & rest & Hsplit & Hold & Hrest).
  destruct rest as [|e rest].
  - rewrite app_nil_r in Hsplit. subst older. left.
    rewrite (grpc_reconcile_drained r id w Hid);
      [reflexivity | rewrite Hq; discriminate | rewrite Hq; exact Hold].
  - rewrite Hsplit in Hq.
    destruct (Z.eq_dec (fst e) id) as [Heq | Hne].
    + rewrite (grpc_reconcile_match r id w older e rest Hid Hq Hold Heq).
      destruct (shared_frame (self w)) as [calls|] eqn:Hsf;
        [right | left; simpl; congruence].
      exists calls, id, (snd e). repeat split.
      rewrite <- Heq, <- surjective_pairing, Hsplit.
      apply in_or_app. right. left. reflexivity.
    + left.
      rewrite (grpc_reconcile_stale r id w older e rest Hid Hq Hold) by lia.
      reflexivity.
Qed.

End Published.

(** ** Concrete runs *)

Section Concrete.
#[local] Abbreviation AW := (World nat unit (Z * Frame nat)).
#[local] Abbreviation LW := (World nat unit (Frame nat)).

(** C1: a result whose id is above every queued id.  In the HTTP client the
    pop loop removes every envelope and then reads the front of the empty
    queue: the step ends with [IndexError], not quietly.  The gRPC client
    tests for emptiness in the loop and after it, and ends as the claim
    says: queue empty, nothing published, no error. *)
Theorem C1_http_pop_loop_runs_off_the_queue :
  let w : AW := mkWorld (mkClient [(0, frame_n 0)] (Some []) 1) [] in
  YoloClient.reconcile (result_n 1) w = (Exc IndexError, with_queue w []) /\
  YoloGRPCClient.reconcile (result_n 1) w = (Val tt, with_queue w []).
Proof. split; reflexivity. Qed.

(** C6: on the local path a frame left in the queue by a failed call is
    published with the answer to the next call.  The first call, for frame
    0, fails in [requests.post]; the second, for frame 1, is answered: the
    shared frame is set with frame 0 and that answer, and frame 1 is left
    behind in its turn.  The gRPC client does the same. *)
Theorem C6_local_path_publishes_a_stale_frame :
  let answer := result_n 0 in
  let w : LW := boot (Some []) in
  let w1 := snd (YoloClient.detect true (frame_n 0) YoloClient.PostRaises w) in
  let w2 := snd (YoloClient.detect true (frame_n 1)
                   (YoloClient.PostReturns (Json answer)) w1) in
  let g1 := snd (YoloGRPCClient.detect true (frame_n 0)
                   YoloGRPCClient.RpcRaises w) in
  let g2 := snd (YoloGRPCClient.detect true (frame_n 1)
                   (YoloGRPCClient.RpcReturns (Json answer)) g1) in
  frame_n 0 <> frame_n 1 /\
  shared_frame (self w2) = Some [(frame_n 0, answer)] /\
  frame_queue (self w2) = [frame_n 1] /\
  shared_frame (self g2) = Some [(frame_n 0, answer)] /\
  frame_queue (self g2) = [frame_n 1].
Proof. repeat split. discriminate. Qed.

(** One call of the HTTP local path without a shared frame changes both the
    queue and the counter; with a shared frame it still moves the counter. *)
Lemma C2_local_call_changes_queue_and_counter :
  let w : LW := boot None in
  let w' := snd (YoloClient.detect true (frame_n 0)
                   (YoloClient.PostReturns (Json (result_n 0))) w) in
  let v : LW := boot (Some []) in
  let v' := snd (YoloClient.detect true (frame_n 0)
                   (YoloClient.PostReturns (Json (result_n 0))) v) in
  frame_queue (self w') <> frame_queue (self w) /\
  frame_id (self w') <> frame_id (self w) /\
  frame_id (self v') <> frame_id (self v).
Proof. repeat split; discriminate. Qed.

(** Without a shared frame the matched envelope is not popped: the pop loop
    stops at envelope 0, the result has id 0, and the queue is as before. *)
Lemma C4_match_without_shared_frame_pops_nothing :
  let w : AW := mkWorld (mkClient [(0, frame_n 0)] None 1) [] in
  YoloClient.discard_old_images (result_n 0) (frame_queue (self w))
  = (Val tt, [(0, frame_n 0)]) /\
  frame_queue (self (snd (YoloClient.reconcile (result_n 0) w)))
  = [(0, frame_n 0)] /\
  frame_queue (self (snd (YoloGRPCClient.reconcile (result_n 0) w)))
  = [(0, frame_n 0)].
Proof. repeat split. Qed.


(** The two reconciliations differ on a result without ['image_id']: the
    HTTP client drops it and returns, the gRPC client raises. *)
Lemma C9_clients_differ_on_missing_image_id :
  let w : AW := mkWorld (mkClient [(0, frame_n 0)] (Some []) 1) [] in
  fst (YoloClient.reconcile result_without_id w) = Val tt /\
  fst (YoloGRPCClient.reconcile result_without_id w) = Exc KeyError /\
  fst (YoloClient.reconcile result_without_id w)
  <> fst (YoloGRPCClient.reconcile result_without_id w).
Proof. repeat split. discriminate. Qed.

(** C4 at work: envelopes 0, 1, 2 queued, the result for 1 arrives. *)
Lemma C4_witness :
  let w : AW :=
    mkWorld (mkClient [(0, frame_n 0); (1, frame_n 1); (2, frame_n 2)]
               (Some []) 3) [] in
  let after := published w [(2, frame_n 2)] [(frame_n 1, result_n 1)] in
  YoloClient.reconcile (result_n 1) w = (Val tt, after) /\
  YoloGRPCClient.reconcile (result_n 1) w = (Val tt, after).
Proof.
  intros w after.
  apply (C4_match_pops_and_publishes_with_slot w (result_n 1) 1
           [(0, frame_n 0)] (frame_n 1) [(2, frame_n 2)]).
  - reflexivity.
  - reflexivity.
  - repeat constructor.
Defined.

(** C7 at work: the call for frame 0 times out; frame 1 is dispatched and
    answered, and its result, being higher, removes envelope 0. *)
Lemma C7_witness :
  let w : AW := boot None in
  let failed :=
    snd (YoloClient.detect_remote (frame_n 0)
           (YoloClient.FailsBeforeYield true) w) in
  let evs :=
    [Call (frame_n 1);
     Resume (YoloClient.Answers (Json (result_n 1)))] in
  frame_queue (self failed) = [(0, frame_n 0)] /\
  (In 0 (ids (snd (YoloClient.run evs failed))) <->
   existsb (higher_result 0) evs = false).
Proof.
  intros w failed evs.
  assert (Hasc : ascending w).
  { split; [reflexivity|]. split; constructor. }
  assert (Hnot : forall ev, In ev evs -> ~ result_for (frame_id (self w)) ev).
  { intros ev [<- | [<- | []]]; simpl; [tauto | discriminate]. }
  pose proof (C7_failed_send_keeps_envelope_until_higher_result
                w (frame_n 0) (YoloClient.FailsBeforeYield true) evs
                ltac:(discriminate) I Hasc Hnot) as H.
  split; [reflexivity|]. exact (proj1 (proj2 (proj2 (proj2 H)))).
Defined.


(** C9 at work: envelopes 0 and 1 queued, the result for 1 arrives. *)
Lemma C9_witness :
  let w : AW :=
    mkWorld (mkClient [(0, frame_n 0); (1, frame_n 1)] (Some []) 2) [] in
  snd (YoloClient.reconcile (result_n 1) w)
  = snd (YoloGRPCClient.reconcile (result_n 1) w).
Proof.
  intros w.
  refine (proj1 (C9_reconcile_same_removal_and_publication
                   w (result_n 1) _)).
  repeat constructor; discriminate.
Defined.

(** C10 at work: envelope 0 queued, a result without id arrives. *)
Lemma C10_witness :
  let w : AW := mkWorld (mkClient [(0, frame_n 0)] (Some []) 1) [] in
  YoloClient.reconcile result_without_id w = (Val tt, w).
Proof.
  intros w.
  refine (proj2 (proj2 (C10_missing_image_id_is_minus_one
                          w result_without_id _ _ _))).
  - reflexivity.
  - discriminate.
  - repeat constructor. discriminate.
Defined.

End Concrete.

(** ** What the asynchronous path publishes, over whole runs *)

Import Correlation.

Section Runs.
Context {Image Boxes : Type}.
#[local] Abbreviation frame_t := (Frame Image).
#[local] Abbreviation results_t := (JsonResults Boxes).
#[local] Abbreviation AW := (World Image Boxes (Z * frame_t)).
Implicit Types (w : AW) (r : results_t) (frames : list frame_t)
  (new : SharedFrame Image Boxes).

(** A reconciliation publishes in the sense of [publication]. *)
Lemma http_reconcile_publication r w :
  Forall (fun x => 0 <= fst x) (frame_queue (self w)) ->
  publication w (snd (YoloClient.reconcile r w)).
Proof.
  intros Hnat. unfold publication.
  destruct (split_older (get_image_id r (-1)) (frame_queue (self w)))
    as (older & rest & Hsplit & Hold & Hrest).
  destruct rest as [|e rest].
  - rewrite app_nil_r in Hsplit. subst older. left.
    destruct (frame_queue (self w)) as [|x q] eqn:Hq.
    + rewrite (http_reconcile_empty r w Hq). reflexivity.
    + rewrite (http_reconcile_drained r w);
        [reflexivity | rewrite Hq; discriminate | rewrite Hq; exact Hold].
  - destruct (Z.eq_dec (fst e) (get_image_id r (-1))) as [Heq | Hne].
    + rewrite (http_reconcile_match r w older e rest Hsplit Hold Heq).
      destruct (shared_frame (self w)) as [calls|] eqn:Hsf;
        [right | left; simpl; congruence].
      assert (He : In e (frame_queue (self w)))
        by (rewrite Hsplit; apply in_or_app; right; left; reflexivity).
      rewrite Forall_forall in Hnat. specialize (Hnat e He).
      unfold get_image_id in Heq.
      destruct (image_id r) as [id|] eqn:Hid; [|lia].
      exists calls, id, (snd e), r, older.
      repeat split; try assumption.
      simpl. rewrite <- Heq, <- surjective_pairing. assumption.
    + left.
      rewrite (http_reconcile_stale r w older e rest Hsplit Hold) by lia.
      reflexivity.
Qed.

Lemma grpc_reconcile_publication r w :
  publication w (snd (YoloGRPCClient.reconcile r w)).
Proof.
  unfold publication.
  destruct (frame_queue (self w)) as [|x q] eqn:Hq.
  { left. rewrite (grpc_reconcile_empty r w Hq). reflexivity. }
  destruct (image_id r) as [id|] eqn:Hid.
  2:{ left. rewrite (grpc_reconcile_no_key r w); [reflexivity | | exact Hid].
      rewrite Hq. discriminate. }
  destruct (split_older id (x :: q))
    as (older & rest & Hsplit & Hold & Hrest).
  destruct rest as [|e rest].
  - rewrite app_nil_r in Hsplit. subst older. left.
    rewrite (grpc_reconcile_drained r id w Hid);
      [reflexivity | rewrite Hq; discriminate | rewrite Hq; exact Hold].
  - rewrite Hsplit in Hq.
    destruct (Z.eq_dec (fst e) id) as [Heq | Hne].
    + rewrite (grpc_reconcile_match r id w older e rest Hid Hq Hold Heq).
      destruct (shared_frame (self w)) as [calls|] eqn:Hsf;
        [right | left; simpl; congruence].
      exists calls, id, (snd e), r, older.
      repeat split; try assumption.
      simpl. rewrite <- Heq, <- surjective_pairing. assumption.
    + left.
      rewrite (grpc_reconcile_stale r id w older e rest Hid Hq Hold) by lia.
      reflexivity.
Qed.

Lemma ascending_natural w :
  ascending w -> Forall (fun x => 0 <= fst x) (frame_queue (self w)).
Proof.
  intros (_ & _ & Hbound). unfold ids in Hbound.
  rewrite Forall_map in Hbound.
  eapply Forall_impl; [|exact Hbound]. simpl. intros; lia.
Qed.

Lemma http_step_publication ev w :
  ascending w -> publication w (snd (YoloClient.step ev w)).
Proof.
  intros Hasc.
  destruct ev as [frame | [timeout | timeout | [|r]]];
    unfold YoloClient.step, YoloClient.detect_until_await,
      YoloClient.dispatch, YoloClient.detect_after_await,
      YoloClient.get_aiohttp_session_response.
  - left. destruct (image frame); reflexivity.
  - left. reflexivity.
  - left. reflexivity.
  - left. reflexivity.
  - pose proof (http_reconcile_publication r w (ascending_natural w Hasc))
      as Hpub.
    unfold bind, ret.
    destruct (YoloClient.reconcile r w) as [[[]|ex|] w']; exact Hpub.
Qed.

Lemma grpc_step_publication ev w :
  ascending w -> publication w (snd (YoloGRPCClient.step ev w)).
Proof.
  intros _.
  destruct ev as [frame | [|[|r]]];
    unfold YoloGRPCClient.step, YoloGRPCClient.detect_until_await,
      YoloGRPCClient.dispatch, YoloGRPCClient.detect_after_await,
      YoloGRPCClient.stub_call.
  - left. destruct (image frame); reflexivity.
  - left. reflexivity.
  - left. reflexivity.
  - pose proof (grpc_reconcile_publication r w) as Hpub.
    unfold json_loads, bind, ret.
    destruct (YoloGRPCClient.reconcile r w) as [[[]|ex|] w']; exact Hpub.
Qed.

(** Taking a stretch out of the middle of an ascending list. *)
Lemma ascending_without_middle (a b c : list Z) :
  StronglySorted Z.lt (a ++ b ++ c) -> StronglySorted Z.lt (a ++ c).
Proof.
  induction a as [|x a IH]; simpl; intros H.
  - exact (ascending_tail b c H).
  - inversion H as [|? ? Hs Hall]; subst. constructor; [exact (IH Hs)|].
    rewrite !Forall_app in Hall. rewrite Forall_app. tauto.
Qed.

(** An envelope of the history sits at the position its id names. *)
Lemma in_number (z : Z) (f : frame_t) frames :
  forall start,
    In (z, f) (number start frames) ->
    exists k, z = Z.of_nat (start + k) /\ nth_error frames k = Some f.
Proof.
  induction frames as [|g frames IH]; intros start Hin; simpl in Hin.
  - destruct Hin.
  - destruct Hin as [Heq | Hin].
    + inversion Heq; subst. exists 0%nat. split; [f_equal; lia | reflexivity].
    + destruct (IH _ Hin) as (k & -> & Hk). exists (S k).
      split; [f_equal; lia | exact Hk].
Qed.

Lemma correlated_grows frames frames' (p : frame_t * results_t) :
  correlated frames p -> correlated (frames ++ frames') p.
Proof.
  intros (id & Hid & Hpos & Hnth). exists id. repeat split; try assumption.
  rewrite nth_error_app1; [exact Hnth|].
  apply nth_error_Some. congruence.
Qed.

Lemma correlated_bound frames (p : frame_t * results_t) :
  correlated frames p -> 0 <= result_id p < Z.of_nat (length frames).
Proof.
  intros (id & Hid & Hpos & Hnth). unfold result_id, get_image_id.
  rewrite Hid. split; [exact Hpos|].
  assert (Hlt : (Z.to_nat id < length frames)%nat)
    by (apply nth_error_Some; congruence).
  lia.
Qed.

(** One event keeps a client settled. *)
Lemma step_keeps_settled {X} (ev : event Image X) sf frames new w out :
  step_effect ev w out ->
  publication w (snd out) ->
  settled sf frames new w ->
  exists new', settled sf (frames ++ dispatched [ev]) new' (snd out).
Proof.
  intros Hstep Hpub (Htail & Hsf & Hcor & Hord).
  pose proof (tail_of_history_ascending frames w Htail) as Hasc.
  destruct (step_keeps_history ev frames w out Hstep Htail) as (_ & Htail').
  assert (Hcor' : Forall (correlated (frames ++ dispatched [ev])) new).
  { eapply Forall_impl; [|exact Hcor]. intros p. apply correlated_grows. }
  destruct ev as [frame | x]; simpl in Hstep.
  - exists new. split; [exact Htail'|].
    destruct (image frame) eqn:Himg.
    + destruct Hstep as (_ & Hq & _ & Hshared).
      split; [congruence|]. split; [exact Hcor'|].
      unfold ids. rewrite Hq, map_app, app_assoc. simpl.
      apply ascending_append; [exact Hord|].
      apply Forall_app. split.
      * apply Forall_forall. intros z Hz. apply in_rev in Hz.
        unfold published_ids in Hz. apply in_map_iff in Hz.
        destruct Hz as (p & <- & Hp).
        rewrite Forall_forall in Hcor.
        pose proof (correlated_bound frames p (Hcor p Hp)) as Hb.
        destruct Htail as (Hn & _). lia.
      * destruct Hasc as (_ & _ & Hbound).
        eapply Forall_impl; [|exact Hbound]. simpl. intros; lia.
    + destruct Hstep as (_ & Hself). unfold ids. rewrite Hself.
      repeat split; assumption.
  - destruct Hstep as (_ & Hn & gone & Hgone).
    destruct Hpub as [Hsame | (calls & id & f & r & older & Hw & Hw' & Hid & Hq)].
    + exists new. split; [exact Htail'|]. split; [congruence|].
      split; [exact Hcor'|].
      unfold ids in *. rewrite Hgone, map_app in Hord.
      exact (ascending_without_middle _ _ _ Hord).
    + exists ((f, r) :: new). split; [exact Htail'|].
      destruct sf as [calls0|]; simpl in Hsf; [|congruence].
      assert (calls = new ++ calls0) by congruence. subst calls.
      split; [rewrite Hw'; reflexivity|].
      assert (Hpos : 0 <= id /\ nth_error frames (Z.to_nat id) = Some f).
      { destruct Htail as (_ & gone' & Hhist).
        assert (Hin : In (id, f) (history frames)).
        { rewrite Hhist, Hq. apply in_or_app. right.
          apply in_or_app. right. left. reflexivity. }
        destruct (in_number id f frames 0 Hin) as (k & -> & Hk).
        split; [lia|]. rewrite Nat2Z.id. exact Hk. }
      split.
      * constructor; [|exact Hcor'].
        apply correlated_grows. exists id. simpl. tauto.
      * unfold ids in *. rewrite Hq, map_app in Hord. simpl in Hord.
        assert (Hrid : result_id (f, r) = id).
        { unfold result_id, get_image_id. simpl. rewrite Hid. reflexivity. }
        unfold published_ids in *. simpl. rewrite Hrid, <- app_assoc.
        simpl.
        exact (ascending_without_middle _ (map fst older) _ Hord).
Qed.

(** Any run keeps a client settled. *)
Lemma run_keeps_settled {X} (step : event Image X -> M Image Boxes _ _)
    (Hstep : forall ev w, step_effect ev w (step ev w))
    (Hpub : forall ev w, ascending w -> publication w (snd (step ev w)))
    sf evs :
  forall frames new w,
    settled sf frames new w ->
    exists new',
      settled sf (frames ++ dispatched evs) new'
        (snd (run_events step evs w)).
Proof.
  induction evs as [|ev evs IH]; intros frames new w Hw.
  - simpl. rewrite app_nil_r. exists new. exact Hw.
  - rewrite dispatched_cons.
    change (run_events step (ev :: evs) w)
      with (let (o, w') := step ev w in
            let (os, w'') := run_events step evs w' in (o :: os, w'')).
    assert (Hasc : ascending w)
      by (apply (tail_of_history_ascending frames), Hw).
    destruct (step_keeps_settled ev sf frames new w (step ev w)
                (Hstep ev w) (Hpub ev w Hasc) Hw) as (new1 & Hw1).
    destruct (step ev w) as [o w']. cbn [snd] in Hw1.
    destruct (IH _ _ _ Hw1) as (new2 & Hw2).
    destruct (run_events step evs w') as [os w'']. cbn [snd] in *.
    exists new2. rewrite app_assoc. exact Hw2.
Qed.

Lemma boot_settled sf : settled sf [] [] (boot sf : AW).
Proof.
  split; [apply boot_tail_of_history|]. split.
  - destruct sf; reflexivity.
  - split; constructor.
Qed.

End Runs.

(** ** Properties of whole runs of the asynchronous path *)

Section RunProperties.
Context {Image Boxes : Type}.
#[local] Abbreviation frame_t := (Frame Image).
#[local] Abbreviation results_t := (JsonResults Boxes).
#[local] Abbreviation AW := (World Image Boxes (Z * frame_t)).
Implicit Types (w : AW) (r : results_t) (frames : list frame_t)
  (new : SharedFrame Image Boxes) (sf : option (SharedFrame Image Boxes)).

Lemma http_run_settled sf
    (evs : list (event Image (YoloClient.exchange Boxes))) :
  exists new,
    settled sf (dispatched evs) new (snd (YoloClient.run evs (boot sf))).
Proof.
  exact (run_keeps_settled YoloClient.step http_step_effect
           http_step_publication sf evs [] [] (boot sf) (boot_settled sf)).
Qed.

Lemma grpc_run_settled sf
    (evs : list (event Image (YoloGRPCClient.rpc Boxes))) :
  exists new,
    settled sf (dispatched evs) new (snd (YoloGRPCClient.run evs (boot sf))).
Proof.
  exact (run_keeps_settled YoloGRPCClient.step grpc_step_effect
           grpc_step_publication sf evs [] [] (boot sf) (boot_settled sf)).
Qed.

(** X1: on the asynchronous path, whatever the order of calls, answers and
    failures, a client never acquires or loses its shared frame, never
    takes back a publication, and every pair it publishes is a dispatched
    frame together with a result carrying the id that frame was dispatched
    under.  HTTP and gRPC alike. *)
Theorem X1_async_publications_are_correlated sf
    (evs : list (event Image (YoloClient.exchange Boxes)))
    (gevs : list (event Image (YoloGRPCClient.rpc Boxes))) :
  (exists new,
     shared_frame (self (snd (YoloClient.run evs (boot sf))))
     = option_map (fun calls => new ++ calls) sf /\
     Forall (correlated (dispatched evs)) new) /\
  (exists new,
     shared_frame (self (snd (YoloGRPCClient.run gevs (boot sf))))
     = option_map (fun calls => new ++ calls) sf /\
     Forall (correlated (dispatched gevs)) new).
Proof.
  split.
  - destruct (http_run_settled sf evs) as (new & _ & Hsf & Hcor & _).
    exists new. split; assumption.
  - destruct (grpc_run_settled sf gevs) as (new & _ & Hsf & Hcor & _).
    exists new. split; assumption.
Qed.

Lemma ascending_nodup (l : list Z) : StronglySorted Z.lt l -> NoDup l.
Proof.
  induction 1 as [|a l Hs IH Ha]; constructor; [|exact IH].
  intros Hin. rewrite Forall_forall in Ha. specialize (Ha a Hin). lia.
Qed.

Lemma ascending_head (l1 l2 : list Z) :
  StronglySorted Z.lt (l1 ++ l2) -> StronglySorted Z.lt l1.
Proof.
  intros H. rewrite <- (app_nil_r l1).
  apply (ascending_without_middle l1 l2 []). rewrite app_nil_r. exact H.
Qed.

(** X2: the results published on the asynchronous path carry strictly
    increasing ids in the order of publication: no id is published twice
    and the shared frame never goes back to an older frame. *)
Theorem X2_async_publications_ascend sf
    (evs : list (event Image (YoloClient.exchange Boxes)))
    (gevs : list (event Image (YoloGRPCClient.rpc Boxes))) :
  (exists new,
     shared_frame (self (snd (YoloClient.run evs (boot sf))))
     = option_map (fun calls => new ++ calls) sf /\
     StronglySorted Z.lt (rev (published_ids new)) /\
     NoDup (published_ids new)) /\
  (exists new,
     shared_frame (self (snd (YoloGRPCClient.run gevs (boot sf))))
     = option_map (fun calls => new ++ calls) sf /\
     StronglySorted Z.lt (rev (published_ids new)) /\
     NoDup (published_ids new)).
Proof.
  assert (Hnodup : forall l : list Z,
             StronglySorted Z.lt (rev l) -> NoDup l).
  { intros l Hl. apply ascending_nodup in Hl.
    rewrite <- (rev_involutive l). apply NoDup_rev. exact Hl. }
  split.
  - destruct (http_run_settled sf evs) as (new & _ & Hsf & _ & Hord).
    apply ascending_head in Hord. exists new. auto.
  - destruct (grpc_run_settled sf gevs) as (new & _ & Hsf & _ & Hord).
    apply ascending_head in Hord. exists new. auto.
Qed.

(** A strictly ascending list of integers from [lo] up to below [hi] has
    at most [hi - lo] elements. *)
Lemma ascending_length (l : list Z) :
  forall lo hi,
    lo <= hi ->
    StronglySorted Z.lt l ->
    Forall (fun z => lo <= z < hi) l ->
    Z.of_nat (length l) <= hi - lo.
Proof.
  induction l as [|a l IH]; intros lo hi Hle Hs Hb; simpl length.
  - simpl. lia.
  - inversion Hs as [|? ? Hs' Ha]; subst. inversion Hb as [|? ? Hab Hb']; subst.
    assert (IH' : Z.of_nat (length l) <= hi - (a + 1)).
    { apply IH; [lia | exact Hs'|].
      rewrite Forall_forall in *. intros z Hz.
      specialize (Ha z Hz). specialize (Hb' z Hz). lia. }
    lia.
Qed.

(** X3: at any moment of a run of the asynchronous path every queued id is
    above every published id, and the envelopes queued and the pairs
    published so far together are no more than the frames dispatched: a
    frame is never both waiting and published, and none is published
    without having been dispatched. *)
Theorem X3_async_queue_and_publications_are_disjoint sf
    (evs : list (event Image (YoloClient.exchange Boxes)))
    (gevs : list (event Image (YoloGRPCClient.rpc Boxes))) :
  (exists new,
     let w' := snd (YoloClient.run evs (boot sf)) in
     shared_frame (self w') = option_map (fun calls => new ++ calls) sf /\
     Forall (fun p => Forall (fun q => p < q) (ids w')) (published_ids new) /\
     (length new + length (frame_queue (self w'))
      <= length (dispatched evs))%nat) /\
  (exists new,
     let w' := snd (YoloGRPCClient.run gevs (boot sf)) in
     shared_frame (self w') = option_map (fun calls => new ++ calls) sf /\
     Forall (fun p => Forall (fun q => p < q) (ids w')) (published_ids new) /\
     (length new + length (frame_queue (self w'))
      <= length (dispatched gevs))%nat).
Proof.
  assert (Hgen : forall frames new w,
             settled sf frames new w ->
             Forall (fun p => Forall (fun q => p < q) (ids w))
               (published_ids new) /\
             (length new + length (frame_queue (self w))
              <= length frames)%nat).
  { intros frames new w (Htail & _ & Hcor & Hord).
    pose proof (tail_of_history_ascending frames w Htail)
      as (_ & _ & Hbound).
    destruct Htail as (Hn & _). split.
    - apply Forall_forall. intros p Hp. apply Forall_forall. intros q Hq.
      apply in_rev in Hp. apply in_split in Hp.
      destruct Hp as (l1 & l2 & Hp). rewrite Hp in Hord.
      rewrite <- app_assoc in Hord. apply ascending_tail in Hord.
      simpl in Hord. inversion Hord as [|? ? _ Hall]; subst.
      rewrite Forall_forall in Hall. apply Hall.
      apply in_or_app. right. exact Hq.
    - assert (Hlen : Z.of_nat (length (rev (published_ids new) ++ ids w))
                     <= Z.of_nat (length frames) - 0).
      { apply ascending_length; [lia | exact Hord|].
        apply Forall_app. split.
        - apply Forall_forall. intros z Hz. apply in_rev in Hz.
          unfold published_ids in Hz. apply in_map_iff in Hz.
          destruct Hz as (p & <- & Hp). rewrite Forall_forall in Hcor.
          exact (correlated_bound frames p (Hcor p Hp)).
        - rewrite Hn in Hbound. exact Hbound. }
      rewrite length_app, length_rev in Hlen.
      unfold published_ids, ids in Hlen. rewrite !length_map in Hlen.
      lia. }
  split.
  - destruct (http_run_settled sf evs) as (new & Hset).
    exists new. split; [exact (proj1 (proj2 Hset)) | exact (Hgen _ _ _ Hset)].
  - destruct (grpc_run_settled sf gevs) as (new & Hset).
    exists new. split; [exact (proj1 (proj2 Hset)) | exact (Hgen _ _ _ Hset)].
Qed.

End RunProperties.

(** ** More on one reconciliation *)

Section ReconcileProperties.
Context {Image Boxes : Type}.
#[local] Abbreviation frame_t := (Frame Image).
#[local] Abbreviation results_t := (JsonResults Boxes).
#[local] Abbreviation AW := (World Image Boxes (Z * frame_t)).
Implicit Types (w : AW) (r : results_t) (q older rest : list (Z * frame_t))
  (e : Z * frame_t).

(** X4: when a reconciliation raises.  It never blocks on the queue.  The
    HTTP step raises, [IndexError], exactly when the queue is not empty and
    every queued id is below the id of the result (-1 for a result without
    ['image_id']); the gRPC step raises, [KeyError], exactly when the queue
    is not empty and the result has no ['image_id'].  In every other case
    they return normally. *)
Theorem X4_reconcile_raises_exactly r w :
  fst (YoloClient.reconcile r w) =
    (if negb (length (frame_queue (self w)) =? 0)%nat &&
        forallb (fun x => fst x <? get_image_id r (-1))
          (frame_queue (self w))
     then Exc IndexError else Val tt) /\
  fst (YoloGRPCClient.reconcile r w) =
    match frame_queue (self w), image_id r with
    | _ :: _, None => Exc KeyError
    | _, _ => Val tt
    end.
Proof.
  split.
  - destruct (split_older (get_image_id r (-1)) (frame_queue (self w)))
      as (older & rest & Hsplit & Hold & Hrest).
    destruct rest as [|e rest].
    + rewrite app_nil_r in Hsplit. subst older.
      assert (Hall : forallb (fun x => fst x <? get_image_id r (-1))
                       (frame_queue (self w)) = true).
      { apply forallb_forall. rewrite Forall_forall in Hold.
        intros x Hx. apply Z.ltb_lt. exact (Hold x Hx). }
      rewrite Hall.
      destruct (frame_queue (self w)) as [|x q] eqn:Hq.
      * rewrite (http_reconcile_empty r w Hq). reflexivity.
      * rewrite (http_reconcile_drained r w);
          [reflexivity | rewrite Hq; discriminate | rewrite Hq; exact Hold].
    + assert (Hall : forallb (fun x => fst x <? get_image_id r (-1))
                       (frame_queue (self w)) = false).
      { rewrite Hsplit, forallb_app. simpl.
        destruct (Z.ltb_spec (fst e) (get_image_id r (-1))); [lia|].
        apply andb_false_r. }
      rewrite Hall, andb_false_r.
      destruct (Z.eq_dec (fst e) (get_image_id r (-1))) as [Heq | Hne].
      * rewrite (http_reconcile_match r w older e rest Hsplit Hold Heq).
        reflexivity.
      * rewrite (http_reconcile_stale r w older e rest Hsplit Hold) by lia.
        reflexivity.
  - destruct (frame_queue (self w)) as [|x q] eqn:Hq.
    { rewrite (grpc_reconcile_empty r w Hq). reflexivity. }
    destruct (image_id r) as [id|] eqn:Hid.
    2:{ rewrite (grpc_reconcile_no_key r w); [reflexivity | | exact Hid].
        rewrite Hq. discriminate. }
    destruct (split_older id (x :: q))
      as (older & rest & Hsplit & Hold & Hrest).
    destruct rest as [|e rest].
    + rewrite app_nil_r in Hsplit. subst older.
      rewrite (grpc_reconcile_drained r id w Hid);
        [reflexivity | rewrite Hq; discriminate | rewrite Hq; exact Hold].
    + rewrite Hsplit in Hq.
      destruct (Z.eq_dec (fst e) id) as [Heq | Hne].
      * rewrite (grpc_reconcile_match r id w older e rest Hid Hq Hold Heq).
        reflexivity.
      * rewrite (grpc_reconcile_stale r id w older e rest Hid Hq Hold)
          by lia.
        reflexivity.
Qed.

(** X5: after a result with id [id] has been reconciled against an
    ascending queue, no envelope older than the result is left: every
    remaining id is at least [id], and above [id] when a shared frame is
    attached.  HTTP and gRPC alike. *)
Theorem X5_reconcile_purges_everything_older r w id :
  StronglySorted Z.lt (ids w) ->
  image_id r = Some id ->
  let after := snd (YoloClient.reconcile r w) in
  let gafter := snd (YoloGRPCClient.reconcile r w) in
  Forall (fun z => id <= z) (ids after) /\
  Forall (fun z => id <= z) (ids gafter) /\
  (shared_frame (self w) <> None ->
   Forall (fun z => id < z) (ids after) /\
   Forall (fun z => id < z) (ids gafter)).
Proof.
  intros Hsorted Hid after gafter. subst after gafter.
  assert (Hget : get_image_id r (-1) = id)
    by (unfold get_image_id; rewrite Hid; reflexivity).
  unfold ids in *.
  destruct (split_older id (frame_queue (self w)))
    as (older & rest & Hsplit & Hold & Hrest).
  destruct rest as [|e rest].
  - rewrite app_nil_r in Hsplit. subst older.
    destruct (frame_queue (self w)) as [|x q] eqn:Hq.
    + rewrite (http_reconcile_empty r w Hq), (grpc_reconcile_empty r w Hq).
      simpl. rewrite Hq. repeat split; constructor.
    + rewrite (http_reconcile_drained r w);
        [| rewrite Hq; discriminate | rewrite Hq, Hget; exact Hold].
      rewrite (grpc_reconcile_drained r id w Hid);
        [| rewrite Hq; discriminate | rewrite Hq; exact Hold].
      simpl. repeat split; constructor.
  - rewrite Hsplit in Hsorted.
    pose proof (ascending_behind older e rest Hsorted) as Hbehind.
    assert (Hrest_ge : Forall (fun z => id < z) (map fst rest)).
    { eapply Forall_impl; [|exact Hbehind]. simpl. intros; lia. }
    assert (Hrest_le : Forall (fun z => id <= z) (map fst rest)).
    { eapply Forall_impl; [|exact Hrest_ge]. simpl. intros; lia. }
    destruct (Z.eq_dec (fst e) id) as [Heq | Hne].
    + rewrite (grpc_reconcile_match r id w older e rest Hid Hsplit Hold Heq).
      rewrite (http_reconcile_match r w older e rest Hsplit);
        [| rewrite Hget; exact Hold | rewrite Hget; exact Heq].
      destruct (shared_frame (self w)) as [calls|]; simpl.
      * repeat split; assumption.
      * repeat split; try (constructor; [lia | assumption]).
        congruence. congruence.
    + rewrite (grpc_reconcile_stale r id w older e rest Hid Hsplit Hold)
        by lia.
      rewrite (http_reconcile_stale r w older e rest Hsplit);
        [| rewrite Hget; exact Hold | rewrite Hget; lia].
      simpl. repeat split; constructor; (lia || assumption).
Qed.

(** X6: a call that is answered before any later call is dispatched, with
    the id it sent, publishes its own frame with that answer and leaves the
    queue empty: every envelope still waiting from earlier calls is
    discarded.  HTTP and gRPC alike. *)
Theorem X6_answer_in_order_publishes_own_frame w frame r calls :
  ascending w ->
  image frame <> None ->
  shared_frame (self w) = Some calls ->
  image_id r = Some (frame_id (self w)) ->
  let after :=
    mkWorld (mkClient [] (Some ((frame, r) :: calls)) (frame_id (self w) + 1))
      (stdout w) in
  YoloClient.detect false frame (YoloClient.Answers (Json r)) w
  = (Val tt, after) /\
  YoloGRPCClient.detect false frame (YoloGRPCClient.RpcReturns (Json r)) w
  = (Val tt, after).
Proof.
  intros (_ & _ & Hbound) Himg Hsf Hid after. subst after.
  destruct w as [[q sf n] out]. simpl in *. subst sf.
  unfold ids in Hbound. simpl in Hbound. rewrite Forall_map in Hbound.
  assert (Hold : Forall (fun x : Z * frame_t => fst x < n) q).
  { eapply Forall_impl; [|exact Hbound]. simpl. intros; lia. }
  set (w1 := mkWorld (mkClient (q ++ [(n, frame)]) (Some calls) (n + 1)) out
             : AW).
  assert (Hget : get_image_id r (-1) = n)
    by (unfold get_image_id; rewrite Hid; reflexivity).
  split.
  - unfold YoloClient.detect, YoloClient.detect_remote,
      YoloClient.detect_until_await, YoloClient.dispatch,
      YoloClient.detect_after_await,
      YoloClient.get_aiohttp_session_response.
    destruct (image frame); [|congruence].
    unfold bind at 1 2 3 4 5 6. unfold read, q_put, incr_frame_id, ret,
      with_self. cbn [self frame_queue shared_frame frame_id stdout].
    fold w1. unfold bind.
    rewrite (http_reconcile_match r w1 q (n, frame) []);
      [reflexivity | reflexivity | rewrite Hget; exact Hold
       | rewrite Hget; reflexivity].
  - unfold YoloGRPCClient.detect, YoloGRPCClient.detect_remote,
      YoloGRPCClient.detect_until_await, YoloGRPCClient.dispatch,
      YoloGRPCClient.detect_after_await, YoloGRPCClient.stub_call.
    destruct (image frame); [|congruence].
    unfold json_loads.
    unfold bind at 1 2 3 4 5 6. unfold read, q_put, incr_frame_id, ret,
      with_self. cbn [self frame_queue shared_frame frame_id stdout].
    fold w1. unfold bind.
    rewrite (grpc_reconcile_match r n w1 q (n, frame) [] Hid);
      [reflexivity | reflexivity | exact Hold | reflexivity].
Qed.

End ReconcileProperties.

(** ** More on the local path *)

Section LocalProperties.
Context {Image Boxes : Type}.
#[local] Abbreviation frame_t := (Frame Image).
#[local] Abbreviation results_t := (JsonResults Boxes).
#[local] Abbreviation LW := (World Image Boxes frame_t).
Implicit Types (r : results_t) (q : list frame_t) (i : Image)
  (ok : list (Image * results_t)) (calls : SharedFrame Image Boxes)
  (w : LW) (frame : frame_t).

(** X7: how a call of the local path ends.  The HTTP [detect_local] returns
    normally on every frame, every outcome of the request and every state
    of the client: it never raises and never blocks on the queue.  The gRPC
    [detect_local] never blocks either, and raises exactly when the frame
    has an image and the stub call fails or its answer is not JSON. *)
Theorem X7_local_call_outcome frame (p : YoloClient.post_result Boxes)
    (x : YoloGRPCClient.rpc Boxes) w :
  fst (YoloClient.detect_local frame p w) = Val tt /\
  fst (YoloGRPCClient.detect_local frame x w) =
    match image frame, x with
    | Some _, YoloGRPCClient.RpcRaises => Exc RpcError
    | Some _, YoloGRPCClient.RpcReturns NotJson => Exc JSONDecodeError
    | _, _ => Val tt
    end.
Proof.
  destruct w as [[q sf n] out]. split.
  - unfold YoloClient.detect_local, YoloClient.requests_post. run_py.
    destruct (image frame); [|reflexivity].
    destruct p as [|[|r]]; try reflexivity.
    destruct sf; [|reflexivity]. destruct q; reflexivity.
  - unfold YoloGRPCClient.detect_local, YoloGRPCClient.stub_call. run_py.
    destruct (image frame); [|reflexivity].
    destruct x as [|[|r]]; try reflexivity.
    destruct sf; [|reflexivity]. destruct q; reflexivity.
Qed.

(** X8: a call of the local path whose request fails, or is answered with a
    body that is not JSON, leaves its frame at the back of the queue; it
    publishes nothing and does not move the counter.  HTTP and gRPC alike. *)
Theorem X8_failed_local_call_leaves_its_frame frame
    (p : YoloClient.post_result Boxes) (x : YoloGRPCClient.rpc Boxes) w :
  image frame <> None ->
  failed_post p ->
  failed_rpc x ->
  let left_behind :=
    mkClient (frame_queue (self w) ++ [frame]) (shared_frame (self w))
      (frame_id (self w)) in
  self (snd (YoloClient.detect_local frame p w)) = left_behind /\
  self (snd (YoloGRPCClient.detect_local frame x w)) = left_behind.
Proof.
  intros Himg Hp Hx left_behind. subst left_behind.
  destruct w as [[q sf n] out]. split.
  - unfold YoloClient.detect_local, YoloClient.requests_post. run_py.
    destruct (image frame); [|congruence].
    destruct p as [|[|r]]; [reflexivity | reflexivity | destruct Hp].
  - unfold YoloGRPCClient.detect_local, YoloGRPCClient.stub_call. run_py.
    destruct (image frame); [|congruence].
    destruct x as [|[|r]]; [reflexivity | reflexivity | destruct Hx].
Qed.

Lemma skipn_behind {A} (n : nat) (q : list A) (a : A) (l : list A) :
  skipn (S n) (q ++ a :: l) = skipn n (tl (q ++ [a]) ++ l).
Proof.
  destruct q; simpl; [reflexivity|]. rewrite <- app_assoc. reflexivity.
Qed.

Lemma firstn_behind {A} (n : nat) (q : list A) (a : A) (l : list A) :
  firstn (S n) (q ++ a :: l)
  = hd a (q ++ [a]) :: firstn n (tl (q ++ [a]) ++ l).
Proof.
  destruct q; simpl; [reflexivity|]. rewrite <- app_assoc. reflexivity.
Qed.

(** Calls that go through with a shared frame attached, on any queue. *)
Lemma http_local_run_lagging ok :
  forall q calls n out,
    let frames := map (fun c => mkFrame (Some (fst c))) ok in
    let waiting := q ++ frames in
    self (repeat_local YoloClient.detect_local (http_calls ok)
            (mkWorld (mkClient q (Some calls) n) out))
    = mkClient (skipn (length ok) waiting)
        (Some (rev (combine (firstn (length ok) waiting) (map snd ok))
               ++ calls))
        (n + Z.of_nat (length ok)).
Proof.
  induction ok as [|[i r] ok IH]; intros q calls n out.
  - simpl. rewrite app_nil_r, Z.add_0_r. reflexivity.
  - cbn zeta. cbn [http_calls map repeat_local fst snd length].
    rewrite http_local_goes_through. cbn [snd].
    fold (http_calls ok). cbn zeta in IH. rewrite IH.
    rewrite skipn_behind, firstn_behind. cbn [combine rev].
    rewrite <- app_assoc. cbn [app]. f_equal. lia.
Qed.

Lemma grpc_local_run_lagging ok :
  forall q calls n out,
    let frames := map (fun c => mkFrame (Some (fst c))) ok in
    let waiting := q ++ frames in
    self (repeat_local YoloGRPCClient.detect_local (grpc_calls ok)
            (mkWorld (mkClient q (Some calls) n) out))
    = mkClient (skipn (length ok) waiting)
        (Some (rev (combine (firstn (length ok) waiting) (map snd ok))
               ++ calls))
        n.
Proof.
  induction ok as [|[i r] ok IH]; intros q calls n out.
  - simpl. rewrite app_nil_r. reflexivity.
  - cbn zeta. cbn [grpc_calls map repeat_local fst snd length].
    rewrite grpc_local_goes_through. cbn [snd].
    fold (grpc_calls ok). cbn zeta in IH. rewrite IH.
    rewrite skipn_behind, firstn_behind. cbn [combine rev].
    rewrite <- app_assoc. reflexivity.
Qed.

(** X9: with a shared frame attached the local path is first-in first-out
    over the queue it finds.  N calls that go through, on a queue holding
    frames left by earlier calls, publish the first N of those frames
    followed by their own, each paired with the answer of the call that
    took it out, and leave as many frames waiting as before: the queue never
    drains, and every later publication pairs an answer with the frame of
    that many calls earlier.  HTTP and gRPC alike. *)
Theorem X9_local_path_lags_by_the_queue ok q calls n out :
  let frames := map (fun c => mkFrame (Some (fst c))) ok in
  let waiting := q ++ frames in
  let taken := firstn (length ok) waiting in
  let w : LW := mkWorld (mkClient q (Some calls) n) out in
  let after := self (repeat_local YoloClient.detect_local (http_calls ok) w) in
  let gafter :=
    self (repeat_local YoloGRPCClient.detect_local (grpc_calls ok) w) in
  frame_queue after = skipn (length ok) waiting /\
  shared_frame after = Some (rev (combine taken (map snd ok)) ++ calls) /\
  length (frame_queue after) = length q /\
  frame_queue gafter = frame_queue after /\
  shared_frame gafter = shared_frame after.
Proof.
  intros frames waiting taken w after gafter.
  subst after gafter w.
  pose proof (http_local_run_lagging ok q calls n out) as Hh.
  pose proof (grpc_local_run_lagging ok q calls n out) as Hg.
  cbn zeta in Hh, Hg. rewrite Hh, Hg. cbn [frame_queue shared_frame].
  repeat split.
  rewrite length_skipn, length_app, length_map. lia.
Qed.

End LocalProperties.

(** ** Voice commands *)

Section VoiceProperties.
Import Voice.
Context (isspace : N -> bool) {Time : Type}.
#[local] Abbreviation Env := (@Voice.Env Time).
Implicit Types (s : Env) (l : LLMWrapper) (r : recording)
  (t : transcription) (c : chat) (path : str).

Ltac run_voice :=
  cbv [Voice.bind Voice.ret Voice.raise Voice.try_except Voice.get
       Voice.print Voice.set_llm Voice.set_files Voice.set_task_history
       Voice.set_use_virtual_robot Voice.path_exists Voice.os_remove
       Voice.llm Voice.use_virtual_robot Voice.task_history Voice.files
       Voice.stdout Voice.enable_audio Voice.whisper_model
       Voice.audio_recorder].

(** Run the code, leaving the tests on the disk and on the text alone. *)
Ltac crunch :=
  repeat progress
    (cbv - [str str_eqb existsb filter startswith strip join app] in *;
     repeat match goal with
       | H : existsb _ _ = _ |- _ => rewrite H
       | H : startswith _ _ = _ |- _ => rewrite H
       end).

(** The same, deciding the tests on fixed texts. *)
Ltac crunch_literals :=
  repeat progress
    (cbv - [str str_eqb existsb filter app] in *;
     repeat match goal with
       | H : existsb _ _ = _ |- _ => rewrite H
       end).

Lemma str_eqb_eq (a b : str) : str_eqb a b = true <-> a = b.
Proof.
  unfold str_eqb. destruct (list_eq_dec N.eq_dec a b); split;
    congruence.
Qed.

Lemma str_eqb_refl (a : str) : str_eqb a a = true.
Proof. apply str_eqb_eq. reflexivity. Qed.

Lemma first_is_there path (fs : list str) :
  existsb (str_eqb path) (path :: fs) = true.
Proof. simpl. rewrite str_eqb_refl. reflexivity. Qed.

Lemma removed_is_gone path (fs : list str) :
  existsb (str_eqb path) (filter (fun f => negb (str_eqb path f)) fs) = false.
Proof.
  induction fs as [|f fs IH]; simpl; [reflexivity|].
  destruct (str_eqb path f) eqn:Hf; simpl; [exact IH|].
  rewrite Hf. exact IH.
Qed.

Lemma removal_spares_others path other (fs : list str) :
  other <> path ->
  existsb (str_eqb other) (filter (fun f => negb (str_eqb path f)) fs)
  = existsb (str_eqb other) fs.
Proof.
  intros Hne. induction fs as [|f fs IH]; simpl; [reflexivity|].
  destruct (str_eqb path f) eqn:Hf; simpl; [|rewrite IH; reflexivity].
  apply str_eqb_eq in Hf. subst f.
  destruct (str_eqb other path) eqn:Ho; [|exact IH].
  apply str_eqb_eq in Ho. contradiction.
Qed.

(** X10: after [LLMWrapper.__init__], whatever fails while the speech model
    and the recorder are set up, the constructor returns normally and
    [enable_audio] is true exactly when audio was asked for and both loaded,
    that is exactly when both [whisper_model] and [audio_recorder] are
    there; a recorder is never there without the model. *)
Theorem X10_wrapper_audio_is_all_or_nothing (size : str)
    (enable whisper_loads recorder_opens : bool) s :
  let built :=
    LLMWrapper_init (Time:=Time) size enable whisper_loads recorder_opens s in
  let l := llm (snd built) in
  fst built = Ok tt /\
  enable_audio l = enable && whisper_loads && recorder_opens /\
  enable_audio l =
    match whisper_model l, audio_recorder l with
    | Some _, Some _ => true
    | _, _ => false
    end /\
  whisper_model l = (if enable && whisper_loads then Some (Whisper size)
                     else None) /\
  match whisper_model l, audio_recorder l with
  | None, Some _ => False
  | _, _ => True
  end.
Proof.
  unfold LLMWrapper_init, initialize_audio.
  destruct enable, whisper_loads, recorder_opens; run_voice; simpl;
    repeat split.
Qed.

(** X11: a voice chat whose recording was saved removes the recorded file
    exactly when something was heard, whether the chat then answers or
    fails; when nothing was heard (the speech model fails, or the text
    starts with "Error:") it returns the transcription error and leaves the
    file on disk.  It returns [None] exactly when something was heard and
    the chat failed.  No other file is created or removed. *)
Theorem X11_voice_chat_removes_the_recording_when_heard
    (stream : bool) path t c s :
  enable_audio (llm s) = true ->
  audio_recorder (llm s) <> None ->
  path <> [] ->
  let done := voice_chat isspace stream (Saved path) t c s in
  on_disk path (snd done) =
    match heard isspace (llm s) t with Some _ => false | None => true end /\
  fst done =
    match heard isspace (llm s) t, c with
    | None, _ => Ok (Some (Text could_not_transcribe))
    | Some _, ChatRaises => Ok None
    | Some _, ChatReturns content =>
        Ok (Some (if stream then Stream else Text content))
    end /\
  (forall other, other <> path ->
                 on_disk other (snd done) = on_disk other s).
Proof.
  intros Hen Hrec Hpath done. subst done.
  destruct s as [[en wm ar] virtual h fs out]. simpl in Hen, Hrec. subst en.
  destruct ar as [ar|]; [|congruence].
  destruct path as [|ch path]; [congruence|]. clear Hpath Hrec.
  assert (Hadd : forall other,
             other <> ch :: path ->
             existsb (str_eqb other) ((ch :: path) :: fs)
             = existsb (str_eqb other) fs).
  { intros other Hne. cbn [existsb].
    destruct (str_eqb other (ch :: path)) eqn:Ho; [|reflexivity].
    apply str_eqb_eq in Ho. contradiction. }
  pose proof (first_is_there (ch :: path) fs) as Hhead.
  pose proof (removed_is_gone (ch :: path)) as Hgone.
  pose proof (removal_spares_others (ch :: path)) as Hspare.
  destruct wm as [wm|].
  - destruct t as [|texts].
    + destruct (existsb (str_eqb (ch :: path)) fs) eqn:He;
        crunch_literals; auto.
    + unfold heard, on_disk. cbn [whisper_model llm].
      destruct (startswith (strip isspace (join space texts)) Error_prefix)
        eqn:Hs.
      * destruct (existsb (str_eqb (ch :: path)) fs) eqn:He; crunch; auto.
      * destruct c as [|content];
          destruct (existsb (str_eqb (ch :: path)) fs) eqn:He; crunch;
          (split; [apply Hgone|]; split; [reflexivity|]);
          intros other Hne; rewrite Hspare by exact Hne;
          rewrite ?Hadd by exact Hne; reflexivity.
  - destruct t as [|texts];
      destruct (existsb (str_eqb (ch :: path)) fs) eqn:He;
      crunch_literals; auto.
Qed.

Lemma error_texts_are_errors :
  startswith audio_not_available Error_prefix = true /\
  startswith could_not_record Error_prefix = true /\
  startswith could_not_transcribe Error_prefix = true.
Proof. repeat split. Qed.

(** Decide the tests the code is stuck on, one after the other. *)
Ltac decide_tests :=
  crunch;
  repeat
    (match goal with
     | |- context [if startswith ?a ?b then _ else _] =>
         destruct (startswith a b) eqn:?
     | |- context [if existsb ?a ?b then _ else _] =>
         destruct (existsb a b) eqn:?
     | |- context [match ?p with [] => _ | _ :: _ => _ end] =>
         is_var p; destruct p
     end; crunch).

Ltac finish_case :=
  decide_tests; eexists; repeat split;
  try (rewrite app_nil_r; reflexivity).

Ltac finish_lines :=
  decide_tests; (split; [reflexivity|]);
  rewrite ?filter_app; cbn [filter is_processing];
  rewrite ?app_nil_r; reflexivity.

(** X12: [VoiceTypeFlyCont.process_voice_command] never raises, and it hands
    a task to the drone exactly when audio is enabled, the recording was
    saved, something was heard and the chat returned a content that is
    neither empty nor starts with "Error:".  Then that content is appended
    to the task history as one entry with status "processing" and the
    success flag is the [use_virtual_robot] flag; in every other case the
    history is unchanged and the flag is false. *)
Theorem X12_task_runs_exactly_for_a_usable_command (now : Time) r t c s :
  let done := process_voice_command isspace now r t c s in
  let command := command_of isspace (llm s) r t c in
  exists told,
    fst done =
      Ok (match command with
          | Some _ => Some voice_command_processed
          | None => None
          end,
          told,
          match command with
          | Some _ => use_virtual_robot s
          | None => false
          end) /\
    task_history (snd done) =
      task_history s ++
      match command with
      | Some content => [mkTask now content processing]
      | None => []
      end /\
    use_virtual_robot (snd done) = use_virtual_robot s /\
    llm (snd done) = llm s.
Proof.
  intros done command. subst done command.
  destruct s as [[en wm ar] virtual h fs out].
  pose proof error_texts_are_errors as (He1 & He2 & He3).
  unfold process_voice_command, voice_chat, record_and_save,
    transcribe_audio, request, check_usable, usable, execute_drone_task,
    command_of, heard.
  destruct en; [|finish_case].
  destruct ar as [ar|];
    [|finish_case].
  destruct r as [|path created|path];
    [finish_case
    |destruct created; finish_case
    |].
  destruct wm as [wm|];
    [|destruct t; finish_case].
  destruct t as [|texts];
    [finish_case|].
  cbn [whisper_model llm enable_audio audio_recorder].
  destruct (startswith (strip isspace (join space texts)) Error_prefix)
    eqn:Hheard;
    [finish_case|].
  destruct c as [|[|ch content]];
    [finish_case
    |finish_case
    |].
  destruct (startswith (ch :: content) Error_prefix) eqn:Hcontent;
    [finish_case|].
  destruct virtual; finish_case.
Qed.

(** X13: [TypeFlyController.process_voice_command] of [main.py] has no
    [try]: it raises exactly when audio is enabled, the recorder is there
    and recording raises; otherwise it returns [None].  It prints one
    "Processing: ..." line, with the content of the chat, exactly for a
    command that would reach the drone, and none otherwise. *)
Theorem X13_main_announces_exactly_a_usable_command r t c s :
  let done := main_process_voice_command (Time:=Time) isspace r t c s in
  fst done =
    match enable_audio (llm s), audio_recorder (llm s), r with
    | true, Some _, RecordRaises => Raised AudioError
    | _, _, _ => Ok None
    end /\
  filter is_processing (stdout (snd done)) =
    filter is_processing (stdout s) ++
    match command_of isspace (llm s) r t c with
    | Some content => [Processing content]
    | None => []
    end.
Proof.
  intros done. subst done.
  destruct s as [[en wm ar] virtual h fs out].
  pose proof error_texts_are_errors as (He1 & He2 & He3).
  unfold main_process_voice_command, voice_chat, record_and_save,
    transcribe_audio, request, check_usable, usable, command_of, heard.
  destruct en; [|finish_lines].
  destruct ar as [ar|]; [|finish_lines].
  destruct r as [|path created|path];
    [finish_lines | destruct created; finish_lines |].
  destruct wm as [wm|]; [|destruct t; finish_lines].
  destruct t as [|texts]; [finish_lines|].
  cbn [whisper_model llm enable_audio audio_recorder].
  destruct (startswith (strip isspace (join space texts)) Error_prefix)
    eqn:Hheard; [finish_lines|].
  destruct c as [|[|ch content]]; [finish_lines | finish_lines |].
  destruct (startswith (ch :: content) Error_prefix) eqn:Hcontent;
    finish_lines.
Qed.



(** X15: [VoiceTypeFlyCont.__init__] raises [NameError] whenever the import
    of the robot wrapper succeeded, [DroneWrapper] being bound only when it
    failed.  When it failed the constructor returns with an empty history,
    announces the virtual robot whatever [use_virtual_robot] is, and keeps
    the flag as given: built with [use_virtual_robot=False], every task then
    fails. *)
Theorem X15_controller_is_built_only_without_the_robot_wrapper
    (import_failed virtual whisper_loads recorder_opens : bool)
    (now : Time) (task_description : str) s :
  let built :=
    VoiceTypeFlyCont_init (Time:=Time) import_failed virtual whisper_loads
      recorder_opens s in
  fst built = (if import_failed then Ok tt else Raised NameError) /\
  use_virtual_robot (snd built) = virtual /\
  (if import_failed
   then task_history (snd built) = [] /\
        last (stdout (snd built)) Rule = UsingVirtualRobot
   else True) /\
  fst (execute_drone_task now task_description (snd built)) = Ok virtual.
Proof.
  intros built. subst built. destruct s as [l v h fs out].
  unfold VoiceTypeFlyCont_init, LLMWrapper_init, initialize_audio,
    execute_drone_task.
  destruct import_failed, virtual, whisper_loads, recorder_opens;
    run_voice; cbn [fst snd]; repeat split; apply last_last.
Qed.

End VoiceProperties.

(** ** The further properties at work *)

Section MoreConcrete.
Import Voice.
#[local] Abbreviation AW := (World nat unit (Z * Frame nat)).
#[local] Abbreviation LW := (World nat unit (Frame nat)).

(** X5 at work: envelopes 0, 1, 2 queued, the result for 1 arrives. *)
Lemma X5_witness :
  let w : AW :=
    mkWorld (mkClient [(0, frame_n 0); (1, frame_n 1); (2, frame_n 2)]
               (Some []) 3) [] in
  Forall (fun z => 1 <= z) (ids (snd (YoloClient.reconcile (result_n 1) w))).
Proof.
  intros w.
  refine (proj1 (X5_reconcile_purges_everything_older
                   (result_n 1) w 1 _ eq_refl)).
  repeat constructor.
Defined.

(** X6 at work: the first call of a fresh client, answered at once. *)
Lemma X6_witness :
  let w : AW := boot (Some []) in
  YoloClient.detect false (frame_n 0)
    (YoloClient.Answers (Json (result_n 0))) w
  = (Val tt,
     mkWorld (mkClient [] (Some [(frame_n 0, result_n 0)]) 1) []).
Proof.
  intros w.
  refine (proj1 (X6_answer_in_order_publishes_own_frame
                   w (frame_n 0) (result_n 0) [] _ _ eq_refl eq_refl)).
  - split; [reflexivity|]. split; constructor.
  - discriminate.
Defined.

(** X8 at work: the server is down when frame 0 is sent. *)
Lemma X8_witness :
  let w : LW := boot None in
  self (snd (YoloClient.detect_local (frame_n 0) YoloClient.PostRaises w))
  = mkClient [frame_n 0] None 0.
Proof.
  intros w.
  refine (proj1 (X8_failed_local_call_leaves_its_frame
                   (frame_n 0) YoloClient.PostRaises
                   YoloGRPCClient.RpcRaises w _ I I)).
  discriminate.
Defined.

(** X11 at work: "hello" is heard and the chat fails; the recording is
    removed all the same. *)
Lemma X11_witness :
  let isspace := fun c : N => (c =? 32)%N in
  let s : @Env nat :=
    mkEnv (mkLLM true (Some (Whisper base)) (Some Recorder)) true [] [] [] in
  let done :=
    voice_chat isspace false (Saved a_wav)
      (Segments [hello]) ChatRaises s in
  on_disk a_wav (snd done) = false /\ fst done = Ok None.
Proof.
  intros isspace s done.
  pose proof (X11_voice_chat_removes_the_recording_when_heard
                isspace false a_wav (Segments [hello])
                ChatRaises s eq_refl ltac:(discriminate)
                ltac:(discriminate)) as H.
  split; [exact (proj1 H) | exact (proj1 (proj2 H))].
Defined.

End MoreConcrete.
